(** * Runner training calculator: the segment recalculation engine

    A shallow embedding of the computational core of the training editor
    (utils.ts and components/TrainingEditor.tsx): the time-of-day
    utilities, the effort-point formula, the forward pass
    [recalculateSegments] and the edit handlers that feed it.

    Numbers.  A JavaScript number is an IEEE 754 double.  It is modelled
    here by the type [number]: an exact rational, or one of the special
    values NaN, +Infinity, -Infinity, with the IEEE rules for the special
    values (NaN propagation, division by zero, Infinity - Infinity, ...).
    Rounding to 53 bits, overflow to Infinity and the sign of zero are not
    modelled: every arithmetic operation on finite values is exact.  The
    properties stated over [number] are identities between the
    expressions the code computes, properties of the structure of the
    lists, and properties of clock times and of whole numbers of minutes
    below 2^31, where doubles are exact.  Where rounding or overflow
    decides, the arithmetic of the pass is evaluated on binary64 itself,
    in the module [Double].

    Strings.  A JavaScript string is a sequence of UTF-16 code units; it
    is modelled as a list of code units ([jsstring]). *)

From Stdlib Require Import ZArith QArith Qcanon Qround Qpower Lia.
From Stdlib Require Import Ascii String.
From Stdlib Require Floats.
From stdpp Require Import base numbers list list_numbers.

Local Open Scope Z_scope.

(** ** Strings as sequences of UTF-16 code units *)

Definition jsstring : Type := list N.

(** An ASCII literal as a JavaScript string. *)
Definition js (s : string) : jsstring :=
  List.map N_of_ascii (list_ascii_of_string s).

(** ** Numbers *)

Inductive number : Type :=
| NaN : number
| Infinity (negative : bool) : number
| Fin (q : Qc) : number.

Definition num (z : Z) : number := Fin (Qc_of_Z z).

(** A decimal literal [n / d], for instance 13.2 as [dec 132 10]. *)
Definition dec (n : Z) (d : positive) : number := Fin (Q2Qc (n # d)).

Definition is_finite (x : number) : bool :=
  match x with Fin _ => true | _ => false end.

Definition is_NaN (x : number) : bool :=
  match x with NaN => true | _ => false end.

Definition Qc_ltb (p q : Qc) : bool := bool_decide (p < q)%Qc.
Definition Qc_eqb (p q : Qc) : bool := bool_decide (p = q).

Module JS.

(** [x + y] *)
Definition add (x y : number) : number :=
  match x, y with
  | NaN, _ | _, NaN => NaN
  | Infinity s, Infinity s' => if Bool.eqb s s' then Infinity s else NaN
  | Infinity s, Fin _ | Fin _, Infinity s => Infinity s
  | Fin p, Fin q => Fin (p + q)%Qc
  end.

(** [- x] *)
Definition neg (x : number) : number :=
  match x with
  | NaN => NaN
  | Infinity s => Infinity (negb s)
  | Fin q => Fin (- q)%Qc
  end.

(** [x - y] *)
Definition sub (x y : number) : number := add x (neg y).

(** [x * y] *)
Definition mul (x y : number) : number :=
  match x, y with
  | NaN, _ | _, NaN => NaN
  | Infinity s, Infinity s' => Infinity (xorb s s')
  | Infinity s, Fin q | Fin q, Infinity s =>
      if Qc_eqb q 0 then NaN else Infinity (xorb s (Qc_ltb q 0))
  | Fin p, Fin q => Fin (p * q)%Qc
  end.

(** [x / y]; a zero divisor is the positive zero. *)
Definition div (x y : number) : number :=
  match x, y with
  | NaN, _ | _, NaN => NaN
  | Infinity _, Infinity _ => NaN
  | Infinity s, Fin q => Infinity (xorb s (Qc_ltb q 0))
  | Fin _, Infinity _ => Fin 0%Qc
  | Fin p, Fin q =>
      if Qc_eqb q 0 then
        if Qc_eqb p 0 then NaN else Infinity (Qc_ltb p 0)
      else Fin (p / q)%Qc
  end.

(** [x < y] *)
Definition lt (x y : number) : bool :=
  match x, y with
  | NaN, _ | _, NaN => false
  | Infinity true, Infinity true => false
  | Infinity true, _ => true
  | _, Infinity true => false
  | Infinity false, _ => false
  | Fin _, Infinity false => true
  | Fin p, Fin q => Qc_ltb p q
  end.

(** [x > y] *)
Definition gt (x y : number) : bool := lt y x.

(** [x <= y] *)
Definition le (x y : number) : bool :=
  match x, y with
  | NaN, _ | _, NaN => false
  | Infinity true, _ => true
  | _, Infinity false => true
  | Infinity false, _ => false
  | Fin _, Infinity true => false
  | Fin p, Fin q => negb (Qc_ltb q p)
  end.

(** [Math.floor(x)] *)
Definition Math_floor (x : number) : number :=
  match x with
  | Fin q => num (Qfloor q)
  | _ => x
  end.

(** [Math.round(x)]: the nearest integer, halves towards +Infinity. *)
Definition Math_round (x : number) : number :=
  match x with
  | Fin q => num (Qfloor (q + Q2Qc (1 # 2))%Qc)
  | _ => x
  end.

(** The integer part of a rational, towards zero. *)
Definition Qtruncate (q : Qc) : Z :=
  if Qc_ltb q 0 then Qceiling q else Qfloor q.

(** [x % y]: the remainder of the truncating division, with the sign
    of the dividend. *)
Definition rem (x y : number) : number :=
  match x, y with
  | NaN, _ | _, NaN => NaN
  | Infinity _, _ => NaN
  | Fin _, Infinity _ => x
  | Fin p, Fin q =>
      if Qc_eqb q 0 then NaN
      else Fin (p - q * Qc_of_Z (Qtruncate (p / q)))%Qc
  end.

End JS.

Declare Scope js_scope.
Delimit Scope js_scope with js.
Bind Scope js_scope with number.
Infix "+" := JS.add : js_scope.
Infix "-" := JS.sub : js_scope.
Infix "*" := JS.mul : js_scope.
Infix "/" := JS.div : js_scope.
Infix "%%" := JS.rem (at level 40, left associativity) : js_scope.
Infix "<?" := JS.lt : js_scope.
Infix ">?" := JS.gt : js_scope.
Infix "<=?" := JS.le : js_scope.

(** ** Conversions between strings and numbers *)

(** White space and line terminators, as [String.prototype.trim] and the
    string-to-number conversion skip them. *)
Definition isWhiteSpace (c : N) : bool :=
  bool_decide (c ∈ [9; 10; 11; 12; 13; 32; 160; 5760; 8232; 8233; 8239;
                    8287; 12288; 65279]%N)
  || ((8192 <=? c)%N && (c <=? 8202)%N).

Fixpoint trimStart (s : jsstring) : jsstring :=
  match s with
  | c :: s' => if isWhiteSpace c then trimStart s' else s
  | [] => []
  end.

Definition trim (s : jsstring) : jsstring :=
  reverse (trimStart (reverse (trimStart s))).

(** The value of a digit in the given radix. *)
Definition digitVal (radix : Z) (c : N) : option Z :=
  let c := Z.of_N c in
  let v := if (48 <=? c) && (c <=? 57) then c - 48
           else if (97 <=? c) && (c <=? 122) then c - 87
           else if (65 <=? c) && (c <=? 90) then c - 55
           else radix in
  if v <? radix then Some v else None.

(** Reads the longest prefix of digits: its value, how many digits it
    has, and what follows. *)
Fixpoint readDigits (radix : Z) (s : jsstring) (acc : Z) (n : nat)
  : Z * nat * jsstring :=
  match s with
  | c :: s' =>
      match digitVal radix c with
      | Some d => readDigits radix s' (acc * radix + d) (S n)
      | None => (acc, n, s)
      end
  | [] => (acc, n, s)
  end.

(** A whole string of digits in the given radix (at least one). *)
Definition readInteger (radix : Z) (s : jsstring) : option Z :=
  match readDigits radix s 0 0 with
  | (v, S _, []) => Some v
  | _ => None
  end.

(** ExponentPart, or nothing, up to the end of the string. *)
Definition readExponent (s : jsstring) : option Z :=
  match s with
  | [] => Some 0
  | c :: s1 =>
      if bool_decide (c = 101%N ∨ c = 69%N) then
        match s1 with
        | 43%N :: s2 => readInteger 10 s2
        | 45%N :: s2 => Z.opp <$> readInteger 10 s2
        | _ => readInteger 10 s1
        end
      else None
  end.

(** StrUnsignedDecimalLiteral other than Infinity: digits, an optional
    fraction and an optional exponent. *)
Definition readUnsignedDecimal (s : jsstring) : option Qc :=
  let '(ip, ni, s1) := readDigits 10 s 0 0 in
  let '(fp, nf, s2) :=
    match s1 with
    | 46%N :: r => readDigits 10 r 0 0
    | _ => (0, 0%nat, s1)
    end in
  match ni, nf with
  | O, O => None
  | _, _ =>
      e ← readExponent s2;
      Some (Q2Qc ((inject_Z ip + inject_Z fp / inject_Z (10 ^ Z.of_nat nf))
                  * (10 # 1) ^ e))
  end.

(** [Number(s)] on a string: the StringToNumber conversion. *)
Definition Number_of_string (s : jsstring) : number :=
  match trim s with
  | [] => num 0
  | 48%N :: c :: r =>
      if bool_decide (c = 120%N ∨ c = 88%N) then
        from_option num NaN (readInteger 16 r)
      else if bool_decide (c = 111%N ∨ c = 79%N) then
        from_option num NaN (readInteger 8 r)
      else if bool_decide (c = 98%N ∨ c = 66%N) then
        from_option num NaN (readInteger 2 r)
      else from_option Fin NaN (readUnsignedDecimal (48%N :: c :: r))
  | 43%N :: u =>
      if bool_decide (u = js "Infinity") then Infinity false
      else from_option Fin NaN (readUnsignedDecimal u)
  | 45%N :: u =>
      if bool_decide (u = js "Infinity") then Infinity true
      else from_option (λ q, Fin (- q)%Qc) NaN (readUnsignedDecimal u)
  | u =>
      if bool_decide (u = js "Infinity") then Infinity false
      else from_option Fin NaN (readUnsignedDecimal u)
  end.

(** The value [undefined] used as a number is NaN. *)
Definition ToNumber (v : option number) : number := default NaN v.

Fixpoint uintCodes (d : Decimal.uint) : jsstring :=
  match d with
  | Decimal.Nil => []
  | Decimal.D0 d => 48%N :: uintCodes d
  | Decimal.D1 d => 49%N :: uintCodes d
  | Decimal.D2 d => 50%N :: uintCodes d
  | Decimal.D3 d => 51%N :: uintCodes d
  | Decimal.D4 d => 52%N :: uintCodes d
  | Decimal.D5 d => 53%N :: uintCodes d
  | Decimal.D6 d => 54%N :: uintCodes d
  | Decimal.D7 d => 55%N :: uintCodes d
  | Decimal.D8 d => 56%N :: uintCodes d
  | Decimal.D9 d => 57%N :: uintCodes d
  end.

(** The decimal digits of an integer, with a minus sign when negative. *)
Definition integerToString (z : Z) : jsstring :=
  match z with
  | Zneg p => 45%N :: uintCodes (Pos.to_uint p)
  | _ => uintCodes (N.to_uint (Z.to_N z))
  end.

(** The numbers whose string form the exact model determines: NaN, the
    infinities and the integers below 10^21 in magnitude. *)
Definition printable (x : number) : bool :=
  match x with
  | Fin q => bool_decide (Qden q = 1%positive)
             && (Z.abs (Qnum q) <? 10 ^ 21)
  | _ => true
  end.

(** [x.toString()].  For a number that is not [printable] JavaScript
    prints the shortest digit string that reads back as the same double,
    which the exact model cannot give: the empty string stands for it.
    [formatTime] only prints [printable] numbers (lemma
    [formatTime_printable]). *)
Definition Number_toString (x : number) : jsstring :=
  match x with
  | NaN => js "NaN"
  | Infinity false => js "Infinity"
  | Infinity true => js "-Infinity"
  | Fin q => if printable x then integerToString (Qnum q) else []
  end.

(** [s.padStart(targetLength, padString)] *)
Definition padStart (targetLength : nat) (padString s : jsstring)
  : jsstring :=
  let n := (targetLength - length s)%nat in
  take n (concat (replicate n padString)) ++ s.

(** [s.split(sep)] for a separator of one code unit. *)
Fixpoint split (sep : N) (s : jsstring) : list jsstring :=
  match s with
  | [] => [[]]
  | c :: s' =>
      if (c =? sep)%N then [] :: split sep s'
      else match split sep s' with
           | h :: t => (c :: h) :: t
           | [] => [[c]]
           end
  end.

(** ** utils.ts *)

Local Open Scope js_scope.

Definition parseTime (timeStr : jsstring) : number :=
  let parts := Number_of_string <$> split 58 timeStr in
  let hours := ToNumber (parts !! 0%nat) in
  let minutes := ToNumber (parts !! 1%nat) in
  hours * num 60 + minutes.

Definition formatTime (totalMinutes : number) : jsstring :=
  let mins := JS.Math_round totalMinutes in
  let hours := JS.Math_floor (mins / num 60) %% num 24 in
  let mins := mins %% num 60 in
  padStart 2 (js "0") (Number_toString hours)
    ++ js ":" ++ padStart 2 (js "0") (Number_toString mins).

Definition addMinutes (timeStr : jsstring) (minutesToAdd : number)
  : jsstring :=
  let currentMinutes := parseTime timeStr in
  formatTime (currentMinutes + minutesToAdd).

Definition calculateEP (distanceKm elevM : number) : number :=
  distanceKm + elevM / num 100.

(** ** types.ts *)

Record Segment : Type := mkSegment {
  id : jsstring;
  name : jsstring;
  description : jsstring;
  (* inputs *)
  splitDistKm : number;
  splitElevM : number;
  targetEPH : number;
  (* set: the segment is in fixed-duration mode; [None] is [undefined] *)
  customDurationMins : option number;
  (* calculated *)
  ep : number;
  targetTimeHours : number;
  targetTimeMins : number;
  (* cumulative / timeline *)
  startTime : jsstring;
  endTime : jsstring;
  totalDistKm : number;
  accuElevM : number;
  accuTimeHours : number;
  accuEPH : number
}.

Module Session.
Record TrainingSession : Type := mkSession {
  id : jsstring;
  name : jsstring;
  date : jsstring;
  globalStartTime : jsstring;
  segments : list Segment;
  totalDistance : number;
  totalElevation : number;
  totalEP : number;
  totalDurationHours : number
}.
End Session.

(** ** components/TrainingEditor.tsx *)

Definition DEFAULT_START_TIME : jsstring := js "07:00".

(** [generateId()] draws a random identifier; the identifier drawn is an
    argument here. *)
Definition createEmptySegment (newId name description : jsstring)
  : Segment :=
  {| id := newId;
     name := name;
     description := description;
     splitDistKm := num 0;
     splitElevM := num 0;
     targetEPH := num 10;
     ep := num 0;
     targetTimeHours := num 0;
     targetTimeMins := num 0;
     startTime := DEFAULT_START_TIME;
     endTime := DEFAULT_START_TIME;
     totalDistKm := num 0;
     accuElevM := num 0;
     accuTimeHours := num 0;
     accuEPH := num 0;
     customDurationMins := None |}.

(** The variables that the callback of [currentSegments.map] in
    [recalculateSegments] reads and assigns from one segment to the
    next. *)
Record Running : Type := mkRunning {
  runningDist : number;
  runningElev : number;
  runningTimeHours : number;
  currentClockTime : jsstring
}.

(** The branch of the callback on the index and the mode: the values
    it leaves in [targetTimeHours], [targetTimeMins] and
    [effectiveEPH]. *)
Definition duration (index : nat) (seg : Segment) (ep : number)
  : number * number * number :=
  if (index =? 0)%nat then
    (* start row: always 0 duration *)
    (num 0, num 0, targetEPH seg)
  else
    let fixedIntensity :=
      (* EPH is fixed, time floats *)
      let safeEPH :=
        if targetEPH seg >? num 0 then targetEPH seg else num 1 in
      let targetTimeHours := ep / safeEPH in
      let targetTimeMins := targetTimeHours * num 60 in
      (targetTimeHours, targetTimeMins, targetEPH seg) in
    match customDurationMins seg with
    | Some custom =>
        if custom >? num 0 then
          (* fixed duration: the time is fixed, the target EPH stays as
             the user typed it *)
          let targetTimeMins := custom in
          let targetTimeHours := targetTimeMins / num 60 in
          (targetTimeHours, targetTimeMins, targetEPH seg)
        else fixedIntensity
    | None => fixedIntensity
    end.

(** One call of the callback of [currentSegments.map]: the segment it
    returns and the variables as it leaves them. *)
Definition recalculateSegment (globalStart : jsstring) (run : Running)
  (index : nat) (seg : Segment) : Segment * Running :=
  let ep := calculateEP (splitDistKm seg) (splitElevM seg) in
  let '(targetTimeHours, targetTimeMins, effectiveEPH) :=
    duration index seg ep in
  let runningDist := runningDist run + splitDistKm seg in
  let runningElev := runningElev run + splitElevM seg in
  let runningTimeHours := runningTimeHours run + targetTimeHours in
  let segStartTime :=
    if (index =? 0)%nat then globalStart else currentClockTime run in
  let segEndTime := addMinutes segStartTime targetTimeMins in
  let accuEPH :=
    if runningTimeHours >? num 0
    then (runningDist + runningElev / num 100) / runningTimeHours
    else num 0 in
  ({| id := id seg;
      name := name seg;
      description := description seg;
      splitDistKm := splitDistKm seg;
      splitElevM := splitElevM seg;
      customDurationMins := customDurationMins seg;
      ep := ep;
      targetEPH := effectiveEPH;
      targetTimeHours := targetTimeHours;
      targetTimeMins := targetTimeMins;
      startTime := segStartTime;
      endTime := segEndTime;
      totalDistKm := runningDist;
      accuElevM := runningElev;
      accuTimeHours := runningTimeHours;
      accuEPH := if (index =? 0)%nat then num 0 else accuEPH |},
   {| runningDist := runningDist;
      runningElev := runningElev;
      runningTimeHours := runningTimeHours;
      currentClockTime := segEndTime |}).

(** [currentSegments.map] from the given index on. *)
Fixpoint recalculateFrom (globalStart : jsstring) (run : Running)
  (index : nat) (segs : list Segment) : list Segment :=
  match segs with
  | [] => []
  | seg :: rest =>
      let '(seg', run') := recalculateSegment globalStart run index seg in
      seg' :: recalculateFrom globalStart run' (S index) rest
  end.

(** The variables as [recalculateSegments] declares them. *)
Definition initialRunning (globalStart : jsstring) : Running :=
  {| runningDist := num 0;
     runningElev := num 0;
     runningTimeHours := num 0;
     currentClockTime := globalStart |}.

Definition recalculateSegments (currentSegments : list Segment)
  (globalStart : jsstring) : list Segment :=
  recalculateFrom globalStart (initialRunning globalStart) 0 currentSegments.

(** The state of the editor component: its three [useState] cells. *)
Record EditorState : Type := mkEditor {
  stName : jsstring;
  stStartTime : jsstring;
  stSegments : list Segment
}.

(** The effect that depends on [startTime]: it runs after a render in
    which the start time has changed. *)
Definition startTimeEffect (st : EditorState) : EditorState :=
  {| stName := stName st;
     stStartTime := stStartTime st;
     stSegments := recalculateSegments (stSegments st) (stStartTime st) |}.

Definition setSegments (st : EditorState) (segs : list Segment)
  : EditorState :=
  {| stName := stName st; stStartTime := stStartTime st;
     stSegments := segs |}.

Definition setStartTime (st : EditorState) (t : jsstring) : EditorState :=
  {| stName := stName st; stStartTime := t;
     stSegments := stSegments st |}.

(** [{ ...segment, customDurationMins: durationMins }] *)
Definition withCustomDuration (segment : Segment) (durationMins : number)
  : Segment :=
  {| id := id segment;
     name := name segment;
     description := description segment;
     splitDistKm := splitDistKm segment;
     splitElevM := splitElevM segment;
     targetEPH := targetEPH segment;
     customDurationMins := Some durationMins;
     ep := ep segment;
     targetTimeHours := targetTimeHours segment;
     targetTimeMins := targetTimeMins segment;
     startTime := startTime segment;
     endTime := endTime segment;
     totalDistKm := totalDistKm segment;
     accuElevM := accuElevM segment;
     accuTimeHours := accuTimeHours segment;
     accuEPH := accuEPH segment |}.

(** The duration that [handleEndTimeChange] derives from the start time
    of the segment and the end time entered. *)
Definition impliedDuration (segStart newEndTime : jsstring) : number :=
  let startMins := parseTime segStart in
  let endMins := parseTime newEndTime in
  (* handle overnight *)
  let endMins :=
    if endMins <? startMins then endMins + num 24 * num 60 else endMins in
  let durationMins := endMins - startMins in
  (* prevent 0 or negative duration *)
  if durationMins <=? num 0 then num 1 else durationMins.

(** [None] is the TypeError of reading a property of [undefined], when
    there is no segment at [index]. *)
Definition handleEndTimeChange (st : EditorState) (index : nat)
  (newEndTime : jsstring) : option EditorState :=
  if (index =? 0)%nat then Some (setStartTime st newEndTime)
  else
    segment ← stSegments st !! index;
    let durationMins := impliedDuration (startTime segment) newEndTime in
    let updated :=
      <[index := withCustomDuration segment durationMins]> (stSegments st) in
    Some (setSegments st (recalculateSegments updated (stStartTime st))).

(** [s.charCodeAt(i)] *)
Definition charCodeAt (s : jsstring) (i : nat) : number :=
  match s !! i with
  | Some c => num (Z.of_N c)
  | None => NaN
  end.

(** The conversion of a number to a 16-bit code unit. *)
Definition ToUint16 (x : number) : N :=
  match x with
  | Fin q => Z.to_N (JS.Qtruncate q mod 65536)
  | _ => 0%N
  end.

(** [String.fromCharCode(x)] *)
Definition fromCharCode (x : number) : jsstring := [ToUint16 x].

(** The row that [addRow] appends, before the recalculation. *)
Definition newRow (newId lastChar : jsstring) : Segment :=
  let nextChar := fromCharCode (charCodeAt lastChar 0 + num 1) in
  let label := if (1 <? length nextChar)%nat then js "X" else nextChar in
  createEmptySegment newId label (lastChar ++ js " To " ++ label).

(** [None] is the TypeError of reading [name] of [undefined], when there
    is no segment at all. *)
Definition addRow (st : EditorState) (newId : jsstring)
  : option EditorState :=
  last ← stSegments st !! (length (stSegments st) - 1)%nat;
  let newSeg := newRow newId (name last) in
  Some (setSegments st
          (recalculateSegments (stSegments st ++ [newSeg]) (stStartTime st))).

(** [segments.reduce((acc, s) => acc + s.ep, 0)] *)
Definition sumEP (segments : list Segment) : number :=
  fold_left (λ acc s, acc + ep s) segments (num 0).

(** The session that [handleSave] hands to [onSave].  [sessionId] and
    [sessionDate] are the identifier and the date it resolves (those of
    the initial session, or fresh ones).  [None] is the TypeError of
    reading a property of [undefined], when there is no segment. *)
Definition handleSave (st : EditorState) (sessionId sessionDate : jsstring)
  : option Session.TrainingSession :=
  lastSeg ← stSegments st !! (length (stSegments st) - 1)%nat;
  Some {| Session.id := sessionId;
          Session.name := stName st;
          Session.date := sessionDate;
          Session.globalStartTime := stStartTime st;
          Session.segments := stSegments st;
          Session.totalDistance := totalDistKm lastSeg;
          Session.totalElevation := accuElevM lastSeg;
          Session.totalEP := sumEP (stSegments st);
          Session.totalDurationHours := accuTimeHours lastSeg |}.

(** ** Notions used to state the properties *)

Global Instance number_eq_dec : EqDecision number.
Proof. solve_decision. Defined.

(** The variables after the callback has run on the segments [done],
    the first of them at position [index]. *)
Fixpoint runAfter (globalStart : jsstring) (run : Running) (index : nat)
  (done : list Segment) : Running :=
  match done with
  | [] => run
  | seg :: rest =>
      runAfter globalStart (recalculateSegment globalStart run index seg).2
        (S index) rest
  end.

(** What the pass returns for [seg] at position [i] of [segs]. *)
Definition rowAt (globalStart : jsstring) (segs : list Segment) (i : nat)
  (seg : Segment) : Segment :=
  (recalculateSegment globalStart
     (runAfter globalStart (initialRunning globalStart) 0 (take i segs))
     i seg).1.

(** [Math.max(x, y)] *)
Definition Math_max (x y : number) : number :=
  match x, y with
  | NaN, _ | _, NaN => NaN
  | _, _ => if x <? y then y else x
  end.

(** A number printed on two digits, and the clock time "HH:MM". *)
Definition pad2 (z : Z) : jsstring :=
  padStart 2 (js "0") (Number_toString (num z)).
Definition clock (h m : Z) : jsstring := pad2 h ++ js ":" ++ pad2 m.

Definition isDigit (c : N) : bool := (48 <=? c)%N && (c <=? 57)%N.

(** The value of a time input: two digits, a colon, two digits, the
    hours below 24 and the minutes below 60. *)
Definition timeOfDay (t : jsstring) : option (Z * Z) :=
  match t with
  | [a; b; colon; c; d] =>
      let h := (10 * (Z.of_N a - 48) + (Z.of_N b - 48))%Z in
      let m := (10 * (Z.of_N c - 48) + (Z.of_N d - 48))%Z in
      if (colon =? 58)%N
         && isDigit a && isDigit b && isDigit c && isDigit d
         && (h <? 24)%Z && (m <? 60)%Z
      then Some (h, m) else None
  | _ => None
  end.

(** The sums that the pass accumulates, in its order. *)
Definition sumDist (segs : list Segment) : number :=
  fold_left (λ acc s, acc + splitDistKm s) segs (num 0).
Definition sumElev (segs : list Segment) : number :=
  fold_left (λ acc s, acc + splitElevM s) segs (num 0).

(** The time accumulated over rows, in the order of the pass. *)
Definition sumTime (rows : list Segment) : number :=
  fold_left (λ acc s, acc + targetTimeHours s) rows (num 0).

(** The duration of an end-time edit in the words of the specification:
    [max(1, endMinutes - startMinutes)], 1440 added to [endMinutes]
    first when it is below [startMinutes]. *)
Definition clampedDuration (startMinutes endMinutes : number) : number :=
  Math_max (num 1)
    ((if endMinutes <? startMinutes then endMinutes + num 1440
      else endMinutes) - startMinutes).

(** The same on minutes of the day, as integers. *)
Definition minutesApart (s e : Z) : Z :=
  Z.max 1 ((if bool_decide (e < s)%Z then e + 1440 else e) - s)%Z.

(** A row as the editor holds it before any recalculation. *)
Definition inputRow (label : string) (dist elev eph : number)
  (custom : option number) : Segment :=
  {| id := js label; name := js label; description := js label;
     splitDistKm := dist; splitElevM := elev; targetEPH := eph;
     customDurationMins := custom;
     ep := num 0; targetTimeHours := num 0; targetTimeMins := num 0;
     startTime := DEFAULT_START_TIME; endTime := DEFAULT_START_TIME;
     totalDistKm := num 0; accuElevM := num 0; accuTimeHours := num 0;
     accuEPH := num 0 |}.

(** A plan of four rows: the start row with inputs of its own, a leg in
    fixed-intensity mode, a leg in fixed-duration mode and a leg whose
    target intensity is zero. *)
Definition examplePlan : list Segment :=
  [ inputRow "Start" (num 5) (num 100) (num 7) (Some (num 45));
    inputRow "A" (dec 132 10) (num 1260) (num 10) None;
    inputRow "B" (num 3) (num 0) (num 8) (Some (num 30));
    inputRow "C" (num 2) (num 50) (num 0) None ].

(** A plan whose last row is labelled Z. *)
Definition planUpToZ : list Segment :=
  [ inputRow "Start" (num 0) (num 0) (num 0) None;
    inputRow "Y" (num 4) (num 120) (num 10) None;
    inputRow "Z" (num 6) (num 80) (num 9) None ].

Definition editorUpToZ : EditorState :=
  {| stName := js "Alphabet";
     stStartTime := js "07:00";
     stSegments := recalculateSegments planUpToZ (js "07:00") |}.

Definition exampleEditor : EditorState :=
  {| stName := js "New Morning Run";
     stStartTime := js "07:00";
     stSegments := recalculateSegments examplePlan (js "07:00") |}.

(** ** The other functions of utils.ts and TrainingEditor.tsx *)

Definition timeDiffInHours (start end_ : jsstring) : number :=
  let s := parseTime start in
  let e := parseTime end_ in
  (* handle overnight *)
  let e := if e <? s then e + num 24 * num 60 else e in
  (e - s) / num 60.

(** The pairs of a field of [Segment] and a value of its type that
    [updateSegment] can be called with. *)
Inductive SegmentEdit : Type :=
| EditId (value : jsstring)
| EditName (value : jsstring)
| EditDescription (value : jsstring)
| EditSplitDistKm (value : number)
| EditSplitElevM (value : number)
| EditTargetEPH (value : number)
| EditCustomDurationMins (value : number)
| EditEp (value : number)
| EditTargetTimeHours (value : number)
| EditTargetTimeMins (value : number)
| EditStartTime (value : jsstring)
| EditEndTime (value : jsstring)
| EditTotalDistKm (value : number)
| EditAccuElevM (value : number)
| EditAccuTimeHours (value : number)
| EditAccuEPH (value : number).

(** [{ ...seg, [field]: value }] *)
Definition setField (seg : Segment) (e : SegmentEdit) : Segment :=
  {| id := match e with EditId v => v | _ => id seg end;
     name := match e with EditName v => v | _ => name seg end;
     description :=
       match e with EditDescription v => v | _ => description seg end;
     splitDistKm :=
       match e with EditSplitDistKm v => v | _ => splitDistKm seg end;
     splitElevM :=
       match e with EditSplitElevM v => v | _ => splitElevM seg end;
     targetEPH := match e with EditTargetEPH v => v | _ => targetEPH seg end;
     customDurationMins :=
       match e with
       | EditCustomDurationMins v => Some v
       | _ => customDurationMins seg
       end;
     ep := match e with EditEp v => v | _ => ep seg end;
     targetTimeHours :=
       match e with EditTargetTimeHours v => v | _ => targetTimeHours seg end;
     targetTimeMins :=
       match e with EditTargetTimeMins v => v | _ => targetTimeMins seg end;
     startTime := match e with EditStartTime v => v | _ => startTime seg end;
     endTime := match e with EditEndTime v => v | _ => endTime seg end;
     totalDistKm :=
       match e with EditTotalDistKm v => v | _ => totalDistKm seg end;
     accuElevM := match e with EditAccuElevM v => v | _ => accuElevM seg end;
     accuTimeHours :=
       match e with EditAccuTimeHours v => v | _ => accuTimeHours seg end;
     accuEPH := match e with EditAccuEPH v => v | _ => accuEPH seg end |}.

(** [seg.customDurationMins = undefined] *)
Definition clearCustomDuration (seg : Segment) : Segment :=
  {| id := id seg;
     name := name seg;
     description := description seg;
     splitDistKm := splitDistKm seg;
     splitElevM := splitElevM seg;
     targetEPH := targetEPH seg;
     customDurationMins := None;
     ep := ep seg;
     targetTimeHours := targetTimeHours seg;
     targetTimeMins := targetTimeMins seg;
     startTime := startTime seg;
     endTime := endTime seg;
     totalDistKm := totalDistKm seg;
     accuElevM := accuElevM seg;
     accuTimeHours := accuTimeHours seg;
     accuEPH := accuEPH seg |}.

(** [None] stands for an index with no segment: there JavaScript stores
    an object that has the edited field only, which is not a [Segment]. *)
Definition updateSegment (st : EditorState) (index : nat) (e : SegmentEdit)
  : option EditorState :=
  current ← stSegments st !! index;
  let seg := setField current e in
  (* an edit of the target EPH switches back to intensity mode *)
  let seg :=
    match e with
    | EditTargetEPH _ => clearCustomDuration seg
    | _ => seg
    end in
  let updated := <[index := seg]> (stSegments st) in
  Some (setSegments st (recalculateSegments updated (stStartTime st))).

(** [{ ...original, id: generateId(), name: original.name + "'" }] *)
Definition duplicateOf (original : Segment) (newId : jsstring) : Segment :=
  setField (setField original (EditId newId))
    (EditName (name original ++ js "'")).

(** [None] is the TypeError of reading [name] of [undefined], when there
    is no segment at [index]. *)
Definition duplicateRow (st : EditorState) (newId : jsstring) (index : nat)
  : option EditorState :=
  original ← stSegments st !! index;
  let newSeg := duplicateOf original newId in
  (* updated.splice(index + 1, 0, newSeg) *)
  let updated :=
    take (S index) (stSegments st) ++ newSeg :: drop (S index) (stSegments st)
  in
  Some (setSegments st (recalculateSegments updated (stStartTime st))).

Definition deleteRow (st : EditorState) (index : nat) : EditorState :=
  if (length (stSegments st) <=? 1)%nat then st (* keep the last row *)
  else
    (* segments.filter((_, i) => i !== index) *)
    let updated := delete index (stSegments st) in
    setSegments st (recalculateSegments updated (stStartTime st)).

(** [s || fallback] on strings: the empty string is falsy. *)
Definition orElse (s fallback : jsstring) : jsstring :=
  if bool_decide (s = []) then fallback else s.

(** The two rows of a new plan; the start row has no effort. *)
Definition initialRows (id1 id2 : jsstring) : list Segment :=
  let startRow :=
    setField (createEmptySegment id1 (js "Start") (js "Start Point"))
      (EditTargetEPH (num 0)) in
  let firstLeg := createEmptySegment id2 (js "A") (js "Start To A") in
  [startRow; firstLeg].

(** The state of the editor once mounted: the initial values of the
    three cells, the effect that initialises the segments and the effect
    that recalculates them.  [id1] and [id2] are the identifiers drawn
    for the rows of a new plan. *)
Definition mount (initialSession : option Session.TrainingSession)
  (id1 id2 : jsstring) : EditorState :=
  let name :=
    match initialSession with
    | Some session => orElse (Session.name session) (js "New Morning Run")
    | None => js "New Morning Run"
    end in
  let startTime :=
    match initialSession with
    | Some session =>
        orElse (Session.globalStartTime session) DEFAULT_START_TIME
    | None => DEFAULT_START_TIME
    end in
  let segments :=
    match initialSession with
    | Some session =>
        if (0 <? length (Session.segments session))%nat
        then Session.segments session
        else initialRows id1 id2
    | None => initialRows id1 id2
    end in
  startTimeEffect
    {| stName := name; stStartTime := startTime; stSegments := segments |}.

(** What the user can do in the editor. *)
Inductive Event : Type :=
| SetName (value : jsstring)
| ChangeStartTime (value : jsstring)
| UpdateSegment (index : nat) (e : SegmentEdit)
| ChangeEndTime (index : nat) (newEndTime : jsstring)
| AddRow (newId : jsstring)
| DuplicateRow (newId : jsstring) (index : nat)
| DeleteRow (index : nat).

(** After a handler the component renders again, and the effect on the
    start time runs when the start time has changed. *)
Definition rerender (before after : EditorState) : EditorState :=
  if bool_decide (stStartTime before = stStartTime after) then after
  else startTimeEffect after.

(** The state after an event; [None] when the handler throws or leaves
    the model. *)
Definition handle (st : EditorState) (ev : Event) : option EditorState :=
  match ev with
  | SetName value =>
      Some {| stName := value; stStartTime := stStartTime st;
              stSegments := stSegments st |}
  | ChangeStartTime value => Some (rerender st (setStartTime st value))
  | UpdateSegment index e => updateSegment st index e
  | ChangeEndTime index newEndTime =>
      rerender st <$> handleEndTimeChange st index newEndTime
  | AddRow newId => addRow st newId
  | DuplicateRow newId index => duplicateRow st newId index
  | DeleteRow index => Some (deleteRow st index)
  end.

(** The states the editor can be in. *)
Inductive reachable : EditorState → Prop :=
| reachable_mount initialSession id1 id2 :
    reachable (mount initialSession id1 id2)
| reachable_handle st ev st' :
    reachable st → handle st ev = Some st' → reachable st'.

(** ** App.tsx *)

Module Goal.
Record MonthlyGoal : Type := mkGoal {
  monthKey : jsstring;
  targetDistance : number;
  targetEP : number
}.
End Goal.

(** [sessions.findIndex(s => s.id === session.id)], then replace or
    append. *)
Definition handleSaveSession (sessions : list Session.TrainingSession)
  (session : Session.TrainingSession) : list Session.TrainingSession :=
  match list_find (λ s, Session.id s = Session.id session) sessions with
  | Some (exists_, _) => <[exists_ := session]> sessions
  | None => sessions ++ [session]
  end.

(** [confirmed] is the answer to the confirmation dialog. *)
Definition handleDeleteSession (sessions : list Session.TrainingSession)
  (sessionId : jsstring) (confirmed : bool)
  : list Session.TrainingSession :=
  if confirmed then filter (λ s, Session.id s ≠ sessionId) sessions
  else sessions.

(** [generateId k] is the identifier that the call number [k] of
    [generateId()] draws, and [now] the date of the copy. *)
Definition handleDuplicateSession (sessions : list Session.TrainingSession)
  (session : Session.TrainingSession) (generateId : nat → jsstring)
  (now : jsstring) : list Session.TrainingSession :=
  let newSession :=
    {| Session.id := generateId 0%nat;
       Session.name := Session.name session ++ js " (Copy)";
       Session.date := now;
       Session.globalStartTime := Session.globalStartTime session;
       Session.segments :=
         imap (λ k s, setField s (EditId (generateId (S k))))
           (Session.segments session);
       Session.totalDistance := Session.totalDistance session;
       Session.totalElevation := Session.totalElevation session;
       Session.totalEP := Session.totalEP session;
       Session.totalDurationHours := Session.totalDurationHours session |}
  in
  newSession :: sessions.

(** [goals.find(g => g.monthKey === currentMonthKey)] *)
Definition currentGoal (goals : list Goal.MonthlyGoal)
  (currentMonthKey : jsstring) : option Goal.MonthlyGoal :=
  snd <$> list_find (λ g, Goal.monthKey g = currentMonthKey) goals.

(** The update of the goals in [saveGoal]; the two numbers are the
    values of the form. *)
Definition saveGoal (goals : list Goal.MonthlyGoal)
  (currentMonthKey : jsstring) (goalDistance goalEP : number)
  : list Goal.MonthlyGoal :=
  let newGoal :=
    {| Goal.monthKey := currentMonthKey;
       Goal.targetDistance := goalDistance;
       Goal.targetEP := goalEP |} in
  match list_find (λ g, Goal.monthKey g = currentMonthKey) goals with
  | Some (existingIdx, _) => <[existingIdx := newGoal]> goals
  | None => goals ++ [newGoal]
  end.

(** [s.startsWith(prefix)] *)
Fixpoint startsWith (s prefix : jsstring) : bool :=
  match prefix, s with
  | [], _ => true
  | p :: prefix', c :: s' => (c =? p)%N && startsWith s' prefix'
  | _ :: _, [] => false
  end.

(** The sessions of the current month and their totals. *)
Definition currentMonthSessions (sessions : list Session.TrainingSession)
  (currentMonthKey : jsstring) : list Session.TrainingSession :=
  filter (λ s, startsWith (Session.date s) currentMonthKey = true) sessions.

Definition currentMonthDist (sessions : list Session.TrainingSession)
  (currentMonthKey : jsstring) : number :=
  fold_left (λ sum s, sum + Session.totalDistance s)
    (currentMonthSessions sessions currentMonthKey) (num 0).

Definition currentMonthEP (sessions : list Session.TrainingSession)
  (currentMonthKey : jsstring) : number :=
  fold_left (λ sum s, sum + Session.totalEP s)
    (currentMonthSessions sessions currentMonthKey) (num 0).

(** ** Notions used to state the further properties *)

(** Two segments that store the same inputs: everything but the derived
    fields. *)
Definition sameInputs (a b : Segment) : Prop :=
  id a = id b ∧ name a = name b ∧ description a = description b
  ∧ splitDistKm a = splitDistKm b ∧ splitElevM a = splitElevM b
  ∧ targetEPH a = targetEPH b
  ∧ customDurationMins a = customDurationMins b.

(** [0 <= x] holds. *)
Definition nonNegative (x : number) : Prop := (num 0 <=? x) = true.

(** Inputs as the editor's fields produce them: a finite distance and a
    finite elevation that are not negative, and a custom duration, when
    there is one, that is finite. *)
Definition plainInputs (seg : Segment) : Prop :=
  is_finite (splitDistKm seg) = true ∧ nonNegative (splitDistKm seg)
  ∧ is_finite (splitElevM seg) = true ∧ nonNegative (splitElevM seg)
  ∧ from_option (λ c, is_finite c = true) True (customDurationMins seg).


(** A plan whose rows last whole minutes: 0, 30 and 60. *)
Definition wholeMinutePlan : list Segment :=
  [ inputRow "Start" (num 0) (num 0) (num 0) None;
    inputRow "A" (num 5) (num 0) (num 10) (Some (num 30));
    inputRow "B" (num 10) (num 0) (num 10) None ].

(** The segments of the editor are the result of a recalculation from
    its start time: recalculating them again changes nothing. *)
Definition recalculated (st : EditorState) : Prop :=
  recalculateSegments (stSegments st) (stStartTime st) = stSegments st.

(** The edits of a derived field. *)
Definition derivedEdit (e : SegmentEdit) : bool :=
  match e with
  | EditEp _ | EditTargetTimeHours _ | EditTargetTimeMins _
  | EditStartTime _ | EditEndTime _ | EditTotalDistKm _ | EditAccuElevM _
  | EditAccuTimeHours _ | EditAccuEPH _ => true
  | _ => false
  end.

(** Replace the first element that has the key of [x] by [x], or append
    [x] when there is none: the shape of [handleSaveSession] and of
    [saveGoal]. *)
Definition upserted {A : Type} (key : A → jsstring) (l : list A) (x : A)
  : list A :=
  match list_find (λ y, key y = key x) l with
  | Some (i, _) => <[i := x]> l
  | None => l ++ [x]
  end.

(** The first session with a given identifier. *)
Definition sessionById (sessions : list Session.TrainingSession)
  (sessionId : jsstring) : option Session.TrainingSession :=
  snd <$> list_find (λ s, Session.id s = sessionId) sessions.

(** A saved session of January 2026 with the rows of the example plan,
    and a second one of February. *)
Definition exampleSession : Session.TrainingSession :=
  {| Session.id := js "s1";
     Session.name := js "New Morning Run";
     Session.date := js "2026-01-15T08:00:00.000Z";
     Session.globalStartTime := js "07:00";
     Session.segments := stSegments exampleEditor;
     Session.totalDistance := sumDist examplePlan;
     Session.totalElevation := sumElev examplePlan;
     Session.totalEP := sumEP (stSegments exampleEditor);
     Session.totalDurationHours := sumTime (stSegments exampleEditor) |}.

Definition laterSession : Session.TrainingSession :=
  {| Session.id := js "s2";
     Session.name := js "Hill Repeats";
     Session.date := js "2026-02-03T18:30:00.000Z";
     Session.globalStartTime := js "18:30";
     Session.segments := recalculateSegments wholeMinutePlan (js "18:30");
     Session.totalDistance := sumDist wholeMinutePlan;
     Session.totalElevation := sumElev wholeMinutePlan;
     Session.totalEP :=
       sumEP (recalculateSegments wholeMinutePlan (js "18:30"));
     Session.totalDurationHours :=
       sumTime (recalculateSegments wholeMinutePlan (js "18:30")) |}.

(** ** The arithmetic of the pass on binary64

    The numbers of the program are IEEE 754 doubles: a sum, a product or
    a quotient is rounded to 53 bits and overflows to Infinity.  The
    module below is the arithmetic of [calculateEP] and of the callback
    of [recalculateSegments] once more, on the binary64 numbers of the
    kernel, to evaluate the pass where rounding and overflow decide.
    The strings of a segment (identifier, name, description, start and
    end time) take no part in these numbers and are left out. *)

Module Double.
Import PrimFloat.
Local Open Scope float_scope.
Set Warnings "-inexact-float".

(** [x > y]: false when one of the two is NaN. *)
Definition gt (x y : float) : bool := y <? x.

(** [distanceKm + (elevM / 100)] *)
Definition calculateEP (distanceKm elevM : float) : float :=
  distanceKm + elevM / 100.

(** The numeric fields of a segment. *)
Record Segment : Type := mkSegment {
  splitDistKm : float;
  splitElevM : float;
  targetEPH : float;
  customDurationMins : option float;
  ep : float;
  targetTimeHours : float;
  targetTimeMins : float;
  totalDistKm : float;
  accuElevM : float;
  accuTimeHours : float;
  accuEPH : float
}.

Record Running : Type := mkRunning {
  runningDist : float;
  runningElev : float;
  runningTimeHours : float
}.

Definition duration (index : nat) (seg : Segment) (ep : float)
  : float * float * float :=
  if (index =? 0)%nat then
    (0, 0, targetEPH seg)
  else
    let fixedIntensity :=
      let safeEPH := if gt (targetEPH seg) 0 then targetEPH seg else 1 in
      let targetTimeHours := ep / safeEPH in
      let targetTimeMins := targetTimeHours * 60 in
      (targetTimeHours, targetTimeMins, targetEPH seg) in
    match customDurationMins seg with
    | Some custom =>
        if gt custom 0 then
          let targetTimeMins := custom in
          let targetTimeHours := targetTimeMins / 60 in
          (targetTimeHours, targetTimeMins, targetEPH seg)
        else fixedIntensity
    | None => fixedIntensity
    end.

Definition recalculateSegment (run : Running) (index : nat) (seg : Segment)
  : Segment * Running :=
  let ep := calculateEP (splitDistKm seg) (splitElevM seg) in
  let '(targetTimeHours, targetTimeMins, effectiveEPH) :=
    duration index seg ep in
  let runningDist := runningDist run + splitDistKm seg in
  let runningElev := runningElev run + splitElevM seg in
  let runningTimeHours := runningTimeHours run + targetTimeHours in
  let accuEPH :=
    if gt runningTimeHours 0
    then (runningDist + runningElev / 100) / runningTimeHours
    else 0 in
  ({| splitDistKm := splitDistKm seg;
      splitElevM := splitElevM seg;
      customDurationMins := customDurationMins seg;
      ep := ep;
      targetEPH := effectiveEPH;
      targetTimeHours := targetTimeHours;
      targetTimeMins := targetTimeMins;
      totalDistKm := runningDist;
      accuElevM := runningElev;
      accuTimeHours := runningTimeHours;
      accuEPH := if (index =? 0)%nat then 0 else accuEPH |},
   {| runningDist := runningDist;
      runningElev := runningElev;
      runningTimeHours := runningTimeHours |}).

Fixpoint recalculateFrom (run : Running) (index : nat)
  (segs : list Segment) : list Segment :=
  match segs with
  | [] => []
  | seg :: rest =>
      let '(seg', run') := recalculateSegment run index seg in
      seg' :: recalculateFrom run' (S index) rest
  end.

Definition initialRunning : Running :=
  {| runningDist := 0; runningElev := 0; runningTimeHours := 0 |}.

Definition recalculateSegments (currentSegments : list Segment)
  : list Segment :=
  recalculateFrom initialRunning 0 currentSegments.

(** A segment as it is stored before the first pass: the inputs, and the
    derived fields at 0. *)
Definition inputRow (dist elev eph : float) (custom : option float)
  : Segment :=
  {| splitDistKm := dist; splitElevM := elev; targetEPH := eph;
     customDurationMins := custom;
     ep := 0; targetTimeHours := 0; targetTimeMins := 0;
     totalDistKm := 0; accuElevM := 0; accuTimeHours := 0; accuEPH := 0 |}.

(** The start row and a leg of 1 km whose target intensity is the
    positive number 1e-320. *)
Definition tinyIntensityPlan : list Segment :=
  [ inputRow 0 0 0 None;
    inputRow 1 0 1e-320 None ].


Set Warnings "inexact-float".
End Double.

(** * Properties *)

(** ** Arithmetic of integer-valued numbers *)

Lemma Qc_ltb_Z a b : Qc_ltb (Qc_of_Z a) (Qc_of_Z b) = bool_decide (a < b)%Z.
Proof. unfold Qc_ltb. apply bool_decide_ext. symmetry. apply Z2Qc_inj_lt. Qed.

Lemma Qc_eqb_Z a b : Qc_eqb (Qc_of_Z a) (Qc_of_Z b) = bool_decide (a = b).
Proof. unfold Qc_eqb. apply bool_decide_ext. apply Z2Qc_inj_iff. Qed.

Lemma Qc_eqb_Z0 a : Qc_eqb (Qc_of_Z a) 0 = bool_decide (a = 0%Z).
Proof. rewrite <- Z2Qc_inj_0. apply Qc_eqb_Z. Qed.

Lemma Qc_ltb_Z0 a : Qc_ltb (Qc_of_Z a) 0 = bool_decide (a < 0)%Z.
Proof. rewrite <- Z2Qc_inj_0. apply Qc_ltb_Z. Qed.

Lemma num_add a b : num a + num b = num (a + b).
Proof. unfold num; simpl. by rewrite Z2Qc_inj_add. Qed.

Lemma num_sub a b : num a - num b = num (a - b).
Proof. unfold num, JS.sub; simpl. by rewrite Z2Qc_inj_sub. Qed.

Lemma num_mul a b : num a * num b = num (a * b).
Proof. unfold num; simpl. by rewrite Z2Qc_inj_mul. Qed.

Lemma num_lt a b : (num a <? num b) = bool_decide (a < b)%Z.
Proof. apply Qc_ltb_Z. Qed.

Lemma num_le a b : (num a <=? num b) = bool_decide (a <= b)%Z.
Proof.
  unfold num; simpl. rewrite Qc_ltb_Z.
  case_bool_decide; case_bool_decide; simpl; auto; lia.
Qed.

Lemma Qfloor_Qc_div a b : Qfloor (Qc_of_Z a / Qc_of_Z b)%Qc = (a / b)%Z.
Proof.
  rewrite Zdiv_Qdiv. apply Qfloor_comp.
  unfold Qcdiv, Qcmult, Qcinv. simpl.
  rewrite !Qred_correct. reflexivity.
Qed.

Lemma Math_round_num z : JS.Math_round (num z) = num z.
Proof.
  unfold num; simpl. unfold num. do 2 f_equal.
  transitivity (Qfloor (inject_Z z + (1 # 2))%Q).
  { apply Qfloor_comp. simpl. rewrite !Qred_correct. reflexivity. }
  unfold Qfloor, Qplus, inject_Z; simpl.
  rewrite Z.mul_1_r.
  replace (z * 2 + 1)%Z with (1 + z * 2)%Z by lia.
  rewrite Z.div_add by lia. reflexivity.
Qed.

Lemma Math_floor_div a b :
  b ≠ 0%Z → JS.Math_floor (num a / num b) = num (a / b).
Proof.
  intros Hb. unfold num at 1 2. cbn [JS.div]. rewrite Qc_eqb_Z0.
  rewrite bool_decide_eq_false_2 by done. cbn [JS.Math_floor].
  by rewrite Qfloor_Qc_div.
Qed.

Lemma Qtruncate_div a b :
  (0 < b)%Z → JS.Qtruncate (Qc_of_Z a / Qc_of_Z b)%Qc = (a ÷ b)%Z.
Proof.
  intros Hb. unfold JS.Qtruncate.
  assert (Hbq : (0 < Qc_of_Z b)%Qc).
  { rewrite <- Z2Qc_inj_0. apply (proj1 (Z2Qc_inj_lt 0 b)). exact Hb. }
  assert (Hs : Qc_ltb (Qc_of_Z a / Qc_of_Z b) 0 = bool_decide (a < 0)%Z).
  { unfold Qc_ltb. apply bool_decide_ext.
    rewrite (Qcmult_lt_mono_pos_r _ _ (Qc_of_Z b)) by done.
    rewrite Qcmult_0_l. unfold Qcdiv.
    rewrite <- Qcmult_assoc, Qcmult_inv_l, Qcmult_1_r.
    - rewrite <- Z2Qc_inj_0. symmetry. apply Z2Qc_inj_lt.
    - intros E. rewrite E in Hbq. by apply Qclt_not_eq in Hbq. }
  rewrite Hs. case_bool_decide.
  - unfold Qceiling.
    transitivity (- Qfloor (Qc_of_Z (- a) / Qc_of_Z b)%Qc)%Z.
    + f_equal. apply Qfloor_comp. unfold Qcdiv, Qcmult, Qcinv; simpl.
      rewrite !Qred_correct. rewrite inject_Z_opp. field.
      intros E. apply (inject_Z_injective b 0) in E. lia.
    + rewrite Qfloor_Qc_div. rewrite <- (Z.opp_involutive a) at 2.
      rewrite Z.quot_opp_l by lia. rewrite Z.quot_div_nonneg by lia. done.
  - rewrite Qfloor_Qc_div. rewrite Z.quot_div_nonneg by lia. done.
Qed.

Lemma num_rem a b : (0 < b)%Z → num a %% num b = num (Z.rem a b).
Proof.
  intros Hb. unfold num. cbn [JS.rem]. rewrite Qc_eqb_Z0.
  rewrite bool_decide_eq_false_2 by lia. f_equal.
  rewrite Qtruncate_div by done.
  rewrite <- Z2Qc_inj_mul, <- Z2Qc_inj_sub. f_equal.
  pose proof (Z.quot_rem' a b). lia.
Qed.

Lemma div_one x : x / num 1 = x.
Proof.
  unfold num. destruct x as [|s|q]; cbn [JS.div]; try done.
  - rewrite Qc_ltb_Z0. rewrite bool_decide_eq_false_2 by lia.
    by destruct s.
  - rewrite Qc_eqb_Z0. rewrite bool_decide_eq_false_2 by lia.
    by rewrite Z2Qc_inj_1, (right_id 1%Qc Qcdiv).
Qed.

(** A quotient of a finite number by a positive one is finite. *)
Lemma div_finite x y :
  is_finite x = true → (y >? num 0) = true → is_finite (x / y) = true.
Proof.
  destruct x as [| |p]; try done. intros _.
  destruct y as [|[]|q]; try done.
  unfold JS.gt, num; cbn [JS.lt JS.div]. intros Hq.
  assert (Qc_eqb q 0 = false) as ->; [|done].
  unfold Qc_eqb. apply bool_decide_eq_false_2. intros ->.
  rewrite Qc_ltb_Z0 in Hq. apply bool_decide_eq_true_1 in Hq. lia.
Qed.

Lemma add_finite x y :
  is_finite x = true → is_finite y = true → is_finite (x + y) = true.
Proof. by destruct x, y. Qed.

Lemma finite_not_NaN x : is_finite x = true → is_NaN x = false.
Proof. by destruct x. Qed.

(** ** The forward pass, one position at a time *)

Lemma recalculateFrom_cons g run index seg rest :
  recalculateFrom g run index (seg :: rest) =
  (recalculateSegment g run index seg).1
  :: recalculateFrom g (recalculateSegment g run index seg).2 (S index) rest.
Proof. simpl. by destruct (recalculateSegment g run index seg). Qed.

Lemma recalculateFrom_lookup g segs : ∀ run index k,
  recalculateFrom g run index segs !! k =
  (λ seg, (recalculateSegment g (runAfter g run index (take k segs))
             (index + k) seg).1) <$> segs !! k.
Proof.
  induction segs as [|seg rest IH]; intros run index k.
  - by destruct k.
  - rewrite recalculateFrom_cons. destruct k as [|k]; simpl.
    + by rewrite Nat.add_0_r.
    + rewrite IH. by rewrite Nat.add_succ_r.
Qed.

Lemma recalculateFrom_length g segs : ∀ run index,
  length (recalculateFrom g run index segs) = length segs.
Proof.
  induction segs as [|seg rest IH]; intros; [done|].
  rewrite recalculateFrom_cons. simpl. by rewrite IH.
Qed.

Lemma recalculateSegments_length segs g :
  length (recalculateSegments segs g) = length segs.
Proof. apply recalculateFrom_length. Qed.

Lemma recalculateSegments_lookup segs g i :
  recalculateSegments segs g !! i = rowAt g segs i <$> segs !! i.
Proof. unfold recalculateSegments. by rewrite recalculateFrom_lookup. Qed.

Lemma recalculateSegments_lookup_Some segs g i s :
  recalculateSegments segs g !! i = Some s ↔
  ∃ seg, segs !! i = Some seg ∧ s = rowAt g segs i seg.
Proof.
  rewrite recalculateSegments_lookup. destruct (segs !! i) as [seg|]; simpl.
  - split; [intros [= <-]; eauto | by intros (? & [= <-] & ->)].
  - split; [done | by intros (? & ? & _)].
Qed.

Lemma recalculateSegments_Forall2 (P : Segment → Segment → Prop) segs g :
  (∀ i seg, segs !! i = Some seg → P seg (rowAt g segs i seg)) →
  Forall2 P segs (recalculateSegments segs g).
Proof.
  intros HP. apply Forall2_same_length_lookup. split.
  - by rewrite recalculateSegments_length.
  - intros i seg s Hseg Hs. rewrite recalculateSegments_lookup, Hseg in Hs.
    injection Hs as <-. by apply HP.
Qed.

Lemma runAfter_snoc g done seg : ∀ run index,
  runAfter g run index (done ++ [seg]) =
  (recalculateSegment g (runAfter g run index done)
     (index + length done) seg).2.
Proof.
  induction done as [|d done IH]; intros run index; simpl.
  - by rewrite Nat.add_0_r.
  - rewrite IH. by rewrite Nat.add_succ_r.
Qed.

(** The variables after position [i] are those the callback left there. *)
Lemma runAfter_take_S g segs i seg :
  segs !! i = Some seg →
  runAfter g (initialRunning g) 0 (take (S i) segs) =
  (recalculateSegment g
     (runAfter g (initialRunning g) 0 (take i segs)) i seg).2.
Proof.
  intros Hseg. rewrite (take_S_r _ _ _ Hseg), runAfter_snoc.
  rewrite length_take_le; [done|].
  apply lookup_lt_Some in Hseg. lia.
Qed.

(** ** One call of the callback *)

Lemma duration_EPH index seg e : (duration index seg e).2 = targetEPH seg.
Proof.
  unfold duration. destruct (index =? 0)%nat; [done|].
  destruct (customDurationMins seg) as [c|]; [|done].
  by destruct (c >? num 0).
Qed.

Ltac callback :=
  unfold recalculateSegment;
  match goal with
  | |- context [duration ?i ?seg ?e] =>
      let H := fresh "HEPH" in
      pose proof (duration_EPH i seg e) as H;
      destruct (duration i seg e) as [[? ?] ?]; simpl in *; subst
  end.

Section callback.
Context (g : jsstring) (run : Running) (index : nat) (seg : Segment).

Let row : Segment := (recalculateSegment g run index seg).1.
Let run' : Running := (recalculateSegment g run index seg).2.

Lemma row_inputs :
  id row = id seg ∧ name row = name seg ∧
  description row = description seg ∧
  splitDistKm row = splitDistKm seg ∧ splitElevM row = splitElevM seg ∧
  targetEPH row = targetEPH seg ∧
  customDurationMins row = customDurationMins seg.
Proof. subst row. by callback. Qed.

Lemma row_ep : ep row = calculateEP (splitDistKm seg) (splitElevM seg).
Proof. subst row. by callback. Qed.

Lemma row_duration :
  targetTimeHours row = (duration index seg (ep row)).1.1 ∧
  targetTimeMins row = (duration index seg (ep row)).1.2.
Proof.
  rewrite row_ep. subst row. unfold recalculateSegment.
  by destruct (duration _ _ _) as [[? ?] ?].
Qed.

Lemma row_totals :
  totalDistKm row = runningDist run + splitDistKm seg ∧
  accuElevM row = runningElev run + splitElevM seg ∧
  accuTimeHours row = runningTimeHours run + targetTimeHours row.
Proof. subst row. by callback. Qed.

Lemma row_times :
  startTime row = (if (index =? 0)%nat then g else currentClockTime run) ∧
  endTime row = addMinutes (startTime row) (targetTimeMins row).
Proof. subst row. by callback. Qed.

Lemma row_accuEPH :
  accuEPH row =
    if (index =? 0)%nat then num 0
    else if accuTimeHours row >? num 0
         then (totalDistKm row + accuElevM row / num 100)
              / accuTimeHours row
         else num 0.
Proof. subst row. by callback. Qed.

Lemma run_next :
  runningDist run' = totalDistKm row ∧ runningElev run' = accuElevM row ∧
  runningTimeHours run' = accuTimeHours row ∧
  currentClockTime run' = endTime row.
Proof. subst row run'. by callback. Qed.
End callback.

(** The callback reads only the inputs of a segment: a segment that it
    has already rewritten is rewritten to the same result. *)
Lemma recalculateSegment_again g run index run0 index0 seg :
  recalculateSegment g run index
    (recalculateSegment g run0 index0 seg).1
  = recalculateSegment g run index seg.
Proof.
  destruct (row_inputs g run0 index0 seg)
    as (Hid & Hname & Hdesc & Hdist & Helev & HEPH & Hcustom).
  unfold recalculateSegment at 1 3. unfold duration.
  by rewrite Hid, Hname, Hdesc, Hdist, Helev, HEPH, Hcustom.
Qed.

Lemma recalculateFrom_again g segs : ∀ run index,
  recalculateFrom g run index (recalculateFrom g run index segs)
  = recalculateFrom g run index segs.
Proof.
  induction segs as [|seg rest IH]; intros run index; [done|].
  rewrite !recalculateFrom_cons, recalculateSegment_again.
  by rewrite IH.
Qed.

(** ** Running totals *)

Lemma runAfter_totals g done : ∀ run index,
  runningDist (runAfter g run index done)
  = fold_left (λ acc s, acc + splitDistKm s) done (runningDist run)
  ∧ runningElev (runAfter g run index done)
    = fold_left (λ acc s, acc + splitElevM s) done (runningElev run).
Proof.
  induction done as [|seg rest IH]; intros run index; [done|].
  simpl. destruct (IH (recalculateSegment g run index seg).2 (S index))
    as [-> ->].
  destruct (run_next g run index seg) as (-> & -> & _).
  by destruct (row_totals g run index seg) as (-> & -> & _).
Qed.

Lemma fold_left_finite (f : Segment → number) segs : ∀ acc,
  is_finite acc = true →
  Forall (λ s, is_finite (f s) = true) segs →
  is_finite (fold_left (λ acc s, acc + f s) segs acc) = true.
Proof.
  induction segs as [|seg rest IH]; intros acc Hacc Hall; [done|].
  inversion_clear Hall. simpl. apply IH; [|done]. by apply add_finite.
Qed.

(** ** The recalculated rows *)

(** C1: the pass returns one row per segment, and in every row, whatever
    its index and mode, the effort score is exactly
    [splitDistKm + splitElevM / 100], on the inputs of the segment, which
    the row keeps. *)
Theorem recalculate_ep segs g :
  Forall2 (λ seg s,
      splitDistKm s = splitDistKm seg ∧ splitElevM s = splitElevM seg ∧
      ep s = splitDistKm s + splitElevM s / num 100)
    segs (recalculateSegments segs g).
Proof.
  apply recalculateSegments_Forall2. intros i seg _. unfold rowAt.
  destruct (row_inputs g (runAfter g (initialRunning g) 0 (take i segs))
              i seg) as (_ & _ & _ & -> & -> & _).
  by rewrite row_ep.
Qed.

(** C2: at an index above 0, a segment with no custom duration gets
    [targetTimeHours = ep / targetEPH] when [targetEPH > 0] and
    [targetTimeHours = ep] when [targetEPH] is 0; its [targetEPH] is kept;
    and the duration is not NaN when the distance, the elevation and the
    target intensity of the segment are finite.  It can be infinite:
    [Overflow.fixed_intensity_overflows] below. *)
Theorem fixed_intensity segs g i seg :
  (0 < i)%nat →
  segs !! i = Some seg →
  customDurationMins seg = None →
  ∃ s, recalculateSegments segs g !! i = Some s
    ∧ targetEPH s = targetEPH seg
    ∧ ((targetEPH seg >? num 0) = true →
       targetTimeHours s = ep s / targetEPH seg)
    ∧ (targetEPH seg = num 0 → targetTimeHours s = ep s)
    ∧ targetTimeMins s = targetTimeHours s * num 60
    ∧ (is_finite (splitDistKm seg) = true →
       is_finite (splitElevM seg) = true →
       is_finite (targetEPH seg) = true →
       is_NaN (targetTimeHours s) = false).
Proof.
  intros Hi Hseg Hmode. exists (rowAt g segs i seg).
  rewrite recalculateSegments_lookup, Hseg. split; [done|].
  unfold rowAt.
  set (run := runAfter g (initialRunning g) 0 (take i segs)).
  destruct (row_duration g run i seg) as [Hh Hm].
  destruct (row_inputs g run i seg) as (_ & _ & _ & _ & _ & HE & _).
  pose proof (row_ep g run i seg) as Hep.
  unfold duration in Hh, Hm. rewrite Hmode in Hh, Hm.
  destruct i as [|i]; [lia|]. cbn [Nat.eqb fst snd] in Hh, Hm.
  split; [done|]. split; [|split; [|split]].
  - intros Hpos. by rewrite Hpos in Hh.
  - intros Hzero. rewrite Hzero in Hh. rewrite Hh. apply div_one.
  - by rewrite Hm, Hh.
  - intros Hdist Helev _. rewrite Hh.
    assert (is_finite (ep (recalculateSegment g run (S i) seg).1) = true)
      as Hfin.
    { rewrite Hep. unfold calculateEP.
      apply add_finite; [done|]. by apply div_finite. }
    apply finite_not_NaN.
    destruct (targetEPH seg >? num 0) eqn:Hpos.
    + by apply div_finite.
    + by rewrite div_one.
Qed.

(** C3: at an index above 0, a segment whose custom duration is set and
    positive gets [targetTimeMins = customDurationMins] and
    [targetTimeHours = customDurationMins / 60], and its [targetEPH] (and
    its custom duration) is the one it had before. *)
Theorem fixed_duration segs g i seg custom :
  (0 < i)%nat →
  segs !! i = Some seg →
  customDurationMins seg = Some custom →
  (custom >? num 0) = true →
  ∃ s, recalculateSegments segs g !! i = Some s
    ∧ targetTimeMins s = custom
    ∧ targetTimeHours s = custom / num 60
    ∧ targetEPH s = targetEPH seg
    ∧ customDurationMins s = Some custom.
Proof.
  intros Hi Hseg Hmode Hpos. exists (rowAt g segs i seg).
  rewrite recalculateSegments_lookup, Hseg. split; [done|].
  unfold rowAt.
  set (run := runAfter g (initialRunning g) 0 (take i segs)).
  destruct (row_duration g run i seg) as [Hh Hm].
  destruct (row_inputs g run i seg) as (_ & _ & _ & _ & _ & HE & Hc).
  unfold duration in Hh, Hm. rewrite Hmode, Hpos in Hh, Hm.
  destruct i as [|i]; [lia|]. cbn [Nat.eqb fst snd] in Hh, Hm.
  by rewrite Hc, Hmode.
Qed.

(** C4: the row at index 0 has [targetTimeHours], [targetTimeMins] and
    [accuEPH] equal to 0, whatever the segment stores. *)
Theorem start_row_zero segs g s :
  recalculateSegments segs g !! 0%nat = Some s →
  targetTimeHours s = num 0 ∧ targetTimeMins s = num 0 ∧ accuEPH s = num 0.
Proof.
  intros (seg & Hseg & ->)%recalculateSegments_lookup_Some. unfold rowAt.
  set (run := runAfter g (initialRunning g) 0 (take 0 segs)).
  destruct (row_duration g run 0 seg) as [Hh Hm].
  pose proof (row_accuEPH g run 0 seg) as Ha.
  by cbn [Nat.eqb] in Ha.
Qed.

Lemma first_row_startTime segs g s :
  recalculateSegments segs g !! 0%nat = Some s → startTime s = g.
Proof.
  intros (seg & Hseg & ->)%recalculateSegments_lookup_Some.
  unfold rowAt. by destruct (row_times g
    (runAfter g (initialRunning g) 0 (take 0 segs)) 0 seg) as [-> _].
Qed.

(** C5: the row at index 0 starts at the global start time, and every
    later row starts when the row before it ends. *)
Theorem timeline_continuity segs g :
  (∀ s, recalculateSegments segs g !! 0%nat = Some s → startTime s = g)
  ∧ (∀ i a b,
       recalculateSegments segs g !! i = Some a →
       recalculateSegments segs g !! S i = Some b →
       startTime b = endTime a).
Proof.
  split; [apply first_row_startTime|].
  intros i a b (sa & Ha & ->)%recalculateSegments_lookup_Some
    (sb & Hb & ->)%recalculateSegments_lookup_Some.
  unfold rowAt.
  destruct (row_times g
    (runAfter g (initialRunning g) 0 (take (S i) segs)) (S i) sb)
    as [-> _].
  rewrite (runAfter_take_S _ _ _ _ Ha). simpl.
  by destruct (run_next g
    (runAfter g (initialRunning g) 0 (take i segs)) i sa)
    as (_ & _ & _ & ->).
Qed.

Lemma recalculateFrom_take g segs n : ∀ run index,
  take n (recalculateFrom g run index segs)
  = recalculateFrom g run index (take n segs).
Proof.
  revert n. induction segs as [|seg rest IH]; intros n run index.
  - by destruct n.
  - destruct n as [|n]; [done|].
    cbn [take]. rewrite !recalculateFrom_cons. cbn [take]. by rewrite IH.
Qed.

Lemma runAfter_time g done : ∀ run index,
  runningTimeHours (runAfter g run index done)
  = fold_left (λ acc s, acc + targetTimeHours s)
      (recalculateFrom g run index done) (runningTimeHours run).
Proof.
  induction done as [|seg rest IH]; intros run index; [done|].
  rewrite recalculateFrom_cons. simpl. rewrite IH.
  destruct (run_next g run index seg) as (_ & _ & -> & _).
  by destruct (row_totals g run index seg) as (_ & _ & ->).
Qed.

Lemma rowAt_totals g segs i seg :
  segs !! i = Some seg →
  totalDistKm (rowAt g segs i seg) = sumDist (take (S i) segs)
  ∧ accuElevM (rowAt g segs i seg) = sumElev (take (S i) segs)
  ∧ accuTimeHours (rowAt g segs i seg)
    = sumTime (take (S i) (recalculateSegments segs g)).
Proof.
  intros Hseg. unfold rowAt.
  destruct (run_next g (runAfter g (initialRunning g) 0 (take i segs))
              i seg) as (Hd & He & Ht & _).
  rewrite <- Hd, <- He, <- Ht, <- (runAfter_take_S _ _ _ _ Hseg).
  destruct (runAfter_totals g (take (S i) segs) (initialRunning g) 0)
    as [-> ->].
  rewrite runAfter_time. unfold recalculateSegments.
  by rewrite recalculateFrom_take.
Qed.


(** ** On doubles

    The module [Double] evaluated at finite inputs where the quotient
    and the totals overflow. *)

Module Overflow.
Import PrimFloat.
Local Open Scope float_scope.

(** On doubles the quotient overflows.  A leg of 1 km and 0 m whose
    target intensity is 1e-320, a positive double: the three inputs are
    finite, the effort score is 1, and [ep / targetEPH] is Infinity. *)
Lemma fixed_intensity_overflows :
  ∃ seg s,
    Double.tinyIntensityPlan !! 1%nat = Some seg
    ∧ Double.customDurationMins seg = None
    ∧ is_finite (Double.splitDistKm seg) = true
    ∧ is_finite (Double.splitElevM seg) = true
    ∧ is_finite (Double.targetEPH seg) = true
    ∧ Double.gt (Double.targetEPH seg) 0 = true
    ∧ Double.recalculateSegments Double.tinyIntensityPlan !! 1%nat = Some s
    ∧ Double.ep s = 1
    ∧ Double.targetTimeHours s
      = Double.ep s / Double.targetEPH seg
    ∧ Double.targetTimeHours s = infinity.
Proof.
  eexists _, _. split; [reflexivity|]. split; [reflexivity|].
  split; [reflexivity|]. split; [reflexivity|]. split; [reflexivity|].
  split; [reflexivity|]. split; [reflexivity|]. split; [reflexivity|].
  split; reflexivity.
Qed.


End Overflow.

(** C7: recalculating the result of a recalculation, with the same global
    start, changes nothing. *)
Theorem recalculate_idempotent segs g :
  recalculateSegments (recalculateSegments segs g) g
  = recalculateSegments segs g.
Proof. apply recalculateFrom_again. Qed.

Lemma sumEP_recalculateFrom g segs : ∀ run index acc,
  fold_left (λ acc s, acc + ep s) (recalculateFrom g run index segs) acc
  = fold_left
      (λ acc seg, acc + (splitDistKm seg + splitElevM seg / num 100))
      segs acc.
Proof.
  induction segs as [|seg rest IH]; intros run index acc; [done|].
  rewrite recalculateFrom_cons. cbn [fold_left]. rewrite IH.
  by rewrite row_ep.
Qed.

(** C10: the inputs of the start row count.  Its effort score is
    [splitDistKm + splitElevM / 100] like any other, its distance and
    elevation open the running totals of every row, and its effort score
    opens the total that [handleSave] stores; only its two durations and
    its cumulative intensity are 0. *)
Theorem start_row_inputs_count seg0 rest g :
  (∃ s0, recalculateSegments (seg0 :: rest) g !! 0%nat = Some s0
     ∧ ep s0 = splitDistKm seg0 + splitElevM seg0 / num 100
     ∧ totalDistKm s0 = num 0 + splitDistKm seg0
     ∧ accuElevM s0 = num 0 + splitElevM seg0
     ∧ targetTimeHours s0 = num 0 ∧ targetTimeMins s0 = num 0
     ∧ accuEPH s0 = num 0)
  ∧ (∀ i s, recalculateSegments (seg0 :: rest) g !! i = Some s →
       totalDistKm s
       = fold_left (λ acc x, acc + splitDistKm x) (take i rest)
           (num 0 + splitDistKm seg0)
       ∧ accuElevM s
         = fold_left (λ acc x, acc + splitElevM x) (take i rest)
             (num 0 + splitElevM seg0))
  ∧ (∀ title sessionId sessionDate,
       ∃ session,
         handleSave {| stName := title; stStartTime := g;
                       stSegments := recalculateSegments (seg0 :: rest) g |}
           sessionId sessionDate = Some session
         ∧ Session.totalEP session
           = fold_left
               (λ acc x, acc + (splitDistKm x + splitElevM x / num 100))
               rest
               (num 0 + (splitDistKm seg0 + splitElevM seg0 / num 100))).
Proof.
  split; [|split].
  - exists (rowAt g (seg0 :: rest) 0 seg0). split; [done|].
    unfold rowAt. cbn [take runAfter].
    destruct (row_duration g (initialRunning g) 0 seg0) as [-> ->].
    destruct (row_totals g (initialRunning g) 0 seg0) as (-> & -> & _).
    by rewrite row_ep, row_accuEPH.
  - intros i s (seg & Hseg & ->)%recalculateSegments_lookup_Some.
    by destruct (rowAt_totals g _ i seg Hseg) as (-> & -> & _).
  - intros title sessionId sessionDate. unfold handleSave. cbn [stSegments].
    destruct (recalculateSegments (seg0 :: rest) g
                !! (length (recalculateSegments (seg0 :: rest) g) - 1)%nat)
      as [lastSeg|] eqn:Hlast.
    + eexists. split; [done|]. cbn [Session.totalEP stSegments].
      unfold sumEP, recalculateSegments.
      by rewrite sumEP_recalculateFrom.
    + apply lookup_ge_None in Hlast.
      rewrite recalculateSegments_length in Hlast. simpl in Hlast. lia.
Qed.

(** ** Clock times *)

Local Open Scope Z_scope.

Lemma Z_range_ind (P : Z → Prop) `{!∀ z, Decision (P z)} lo n :
  bool_decide (Forall P (seqZ lo n)) = true → ∀ z, lo ≤ z < lo + n → P z.
Proof.
  intros Hall%bool_decide_eq_true_1 z Hz.
  rewrite Forall_forall in Hall. apply Hall. by apply elem_of_seqZ.
Qed.

Lemma pad2_digits z :
  0 ≤ z < 60 → pad2 z = [Z.to_N (48 + z / 10); Z.to_N (48 + z mod 10)].
Proof.
  apply (Z_range_ind (λ z, pad2 z = [Z.to_N (48 + z / 10); Z.to_N (48 + z mod 10)]) 0 60).
  vm_compute. reflexivity.
Qed.

Lemma Number_pad2 z : 0 ≤ z < 60 → Number_of_string (pad2 z) = num z.
Proof.
  apply (Z_range_ind (λ z, Number_of_string (pad2 z) = num z) 0 60).
  vm_compute. reflexivity.
Qed.

Lemma split_app_sep sep l1 l2 :
  sep ∉ l1 → split sep (l1 ++ sep :: l2) = l1 :: split sep l2.
Proof.
  induction l1 as [|c l1 IH]; intros Hnot; simpl.
  - by rewrite N.eqb_refl.
  - apply not_elem_of_cons in Hnot as [Hc Hl1].
    rewrite (proj2 (N.eqb_neq c sep)) by done. by rewrite IH.
Qed.

Lemma split_no_sep sep l : sep ∉ l → split sep l = [l].
Proof.
  induction l as [|c l IH]; intros Hnot; simpl; [done|].
  apply not_elem_of_cons in Hnot as [Hc Hl].
  rewrite (proj2 (N.eqb_neq c sep)) by done. by rewrite IH.
Qed.

Lemma pad2_no_colon z : 0 ≤ z < 60 → 58%N ∉ pad2 z.
Proof.
  apply (Z_range_ind (λ z, 58%N ∉ pad2 z) 0 60).
  vm_compute. reflexivity.
Qed.

Lemma parseTime_clock h m :
  0 ≤ h < 60 → 0 ≤ m < 60 → parseTime (clock h m) = num (h * 60 + m).
Proof.
  intros Hh Hm. unfold parseTime, clock.
  change (js ":" ++ pad2 m) with (58%N :: pad2 m).
  rewrite split_app_sep by by apply pad2_no_colon.
  rewrite split_no_sep by by apply pad2_no_colon.
  cbn [fmap list_fmap lookup list_lookup ToNumber default].
  rewrite !Number_pad2 by done.
  unfold Datatypes.id. by rewrite num_mul, num_add.
Qed.

Lemma formatTime_num z :
  0 ≤ z → formatTime (num z) = clock ((z / 60) mod 24) (z mod 60).
Proof.
  intros Hz. unfold formatTime.
  rewrite Math_round_num, Math_floor_div by done.
  rewrite !num_rem by lia.
  rewrite !Z.rem_mod_nonneg by (try apply Z.div_pos; lia).
  done.
Qed.

Lemma timeOfDay_clock t h m :
  timeOfDay t = Some (h, m) → t = clock h m ∧ 0 ≤ h < 24 ∧ 0 ≤ m < 60.
Proof.
  unfold timeOfDay, isDigit.
  destruct t as [|a [|b [|x [|c [|d [|]]]]]]; try done.
  intros H. case_match eqn:Hc; [|done]. injection H as <- <-.
  repeat (apply andb_prop in Hc as [Hc ?]).
  apply N.eqb_eq in Hc as ->.
  repeat match goal with
         | H : _ && _ = true |- _ => apply andb_prop in H as [? ?]
         | H : (_ <=? _)%N = true |- _ => apply N.leb_le in H
         | H : (_ <? _)%Z = true |- _ => apply Z.ltb_lt in H
         end.
  assert (0 ≤ Z.of_N a - 48 < 10 ∧ 0 ≤ Z.of_N b - 48 < 10
          ∧ 0 ≤ Z.of_N c - 48 < 10 ∧ 0 ≤ Z.of_N d - 48 < 10) as (Ha & Hb & Hc' & Hd) by lia.
  split; [|lia]. unfold clock. rewrite !pad2_digits by lia.
  cbn [app js List.map list_ascii_of_string N_of_ascii].
  repeat f_equal; Z.to_euclidean_division_equations; lia.
Qed.

Lemma timeOfDay_of_clock h m :
  0 ≤ h < 24 → 0 ≤ m < 60 → timeOfDay (clock h m) = Some (h, m).
Proof.
  intros Hh Hm.
  apply (proj1 (Forall_seqZ (λ m, timeOfDay (clock h m) = Some (h, m))
                  0 60)); [|lia].
  revert h Hh.
  apply (Z_range_ind
           (λ h, Forall (λ m, timeOfDay (clock h m) = Some (h, m))
                   (seqZ 0 60)) 0 24).
  vm_compute. reflexivity.
Qed.


Lemma impliedDuration_clock hs ms he me :
  0 ≤ hs < 24 → 0 ≤ ms < 60 → 0 ≤ he < 24 → 0 ≤ me < 60 →
  impliedDuration (clock hs ms) (clock he me)
  = num (minutesApart (hs * 60 + ms) (he * 60 + me)).
Proof.
  intros. unfold impliedDuration, minutesApart.
  rewrite !parseTime_clock by lia. rewrite num_lt, num_mul.
  case_bool_decide; rewrite ?num_add, num_sub, num_le;
    case_bool_decide; f_equal; lia.
Qed.

Lemma Math_max_num a b : Math_max (num a) (num b) = num (Z.max a b).
Proof.
  unfold Math_max, num. cbn [JS.lt]. rewrite Qc_ltb_Z.
  case_bool_decide; do 2 f_equal; lia.
Qed.

Lemma clampedDuration_clock hs ms he me :
  0 ≤ hs < 24 → 0 ≤ ms < 60 → 0 ≤ he < 24 → 0 ≤ me < 60 →
  clampedDuration (parseTime (clock hs ms)) (parseTime (clock he me))
  = num (minutesApart (hs * 60 + ms) (he * 60 + me)).
Proof.
  intros. unfold clampedDuration, minutesApart.
  rewrite !parseTime_clock by lia. rewrite num_lt.
  case_bool_decide; by rewrite ?num_add, num_sub, Math_max_num.
Qed.

Lemma addMinutes_clock hs ms d :
  0 ≤ hs < 24 → 0 ≤ ms < 60 → 0 ≤ d →
  addMinutes (clock hs ms) (num d)
  = clock (((hs * 60 + ms + d) / 60) mod 24) ((hs * 60 + ms + d) mod 60).
Proof.
  intros. unfold addMinutes. rewrite parseTime_clock by lia.
  rewrite num_add. apply formatTime_num. lia.
Qed.

Lemma addMinutes_apart hs ms he me :
  0 ≤ hs < 24 → 0 ≤ ms < 60 → 0 ≤ he < 24 → 0 ≤ me < 60 →
  (hs, ms) ≠ (he, me) →
  addMinutes (clock hs ms) (num (minutesApart (hs * 60 + ms) (he * 60 + me)))
  = clock he me.
Proof.
  intros ? ? ? ? Hne. rewrite addMinutes_clock by (unfold minutesApart; lia).
  assert (hs * 60 + ms ≠ he * 60 + me) by (intros ?; apply Hne; f_equal; lia).
  unfold minutesApart. case_bool_decide; f_equal;
    Z.to_euclidean_division_equations; lia.
Qed.

Lemma printable_num z : Z.abs z < 10 ^ 21 → printable (num z) = true.
Proof.
  intros Hz. unfold printable, num. cbn [Qc_of_Z this inject_Z Qden Qnum].
  rewrite bool_decide_eq_true_2 by done. by apply Z.ltb_lt.
Qed.

(** [formatTime] only prints numbers whose string form the model
    determines: NaN, or an integer below 24, respectively 60, in
    magnitude. *)
Lemma formatTime_printable totalMinutes :
  printable (JS.Math_floor (JS.Math_round totalMinutes / num 60) %% num 24)
  = true
  ∧ printable (JS.Math_round totalMinutes %% num 60) = true.
Proof.
  destruct totalMinutes as [|[]|q]; [done..|].
  cbn [JS.Math_round]. rewrite Math_floor_div, !num_rem by lia.
  split; apply printable_num; Z.to_euclidean_division_equations; lia.
Qed.

Lemma clock_inj h m h' m' :
  0 ≤ h < 24 → 0 ≤ m < 60 → 0 ≤ h' < 24 → 0 ≤ m' < 60 →
  clock h m = clock h' m' → (h, m) = (h', m').
Proof.
  intros ? ? ? ? Heq. apply (f_equal parseTime) in Heq.
  rewrite !parseTime_clock in Heq by lia.
  injection Heq as Heq. f_equal; lia.
Qed.

(** ** Editing an end time *)

(** In a recalculated list every row after the first starts at the clock
    time that the pass has reached there. *)
Lemma recalculated_startTime segs0 g i seg :
  (0 < i)%nat →
  recalculateSegments segs0 g !! i = Some seg →
  startTime seg
  = currentClockTime
      (runAfter g (initialRunning g) 0
         (take i (recalculateSegments segs0 g))).
Proof.
  intros Hi Hseg.
  assert (recalculateSegments (recalculateSegments segs0 g) g !! i
          = Some seg) as Hagain.
  { unfold recalculateSegments at 1 2. by rewrite recalculateFrom_again. }
  rewrite recalculateSegments_lookup, Hseg in Hagain.
  injection Hagain as Hrow. rewrite <- Hrow at 1. unfold rowAt.
  destruct i as [|i]; [lia|].
  by destruct (row_times g
    (runAfter g (initialRunning g) 0
       (take (S i) (recalculateSegments segs0 g))) (S i) seg) as [-> _].
Qed.

(** A row in fixed-duration mode, after the first: its duration, its
    start and its end. *)
Lemma custom_duration_row g run i seg d :
  (0 < i)%nat →
  (d >? num 0)%js = true →
  let row := (recalculateSegment g run i (withCustomDuration seg d)).1 in
  customDurationMins row = Some d
  ∧ targetTimeMins row = d
  ∧ startTime row = currentClockTime run
  ∧ endTime row = addMinutes (currentClockTime run) d.
Proof.
  intros Hi Hd row. subst row.
  destruct (row_inputs g run i (withCustomDuration seg d))
    as (_ & _ & _ & _ & _ & _ & Hc).
  destruct (row_duration g run i (withCustomDuration seg d)) as [_ Hm].
  destruct (row_times g run i (withCustomDuration seg d)) as [Hs He].
  destruct i as [|i]; [lia|].
  unfold duration in Hm. cbn [Nat.eqb withCustomDuration customDurationMins]
    in Hm.
  rewrite Hd in Hm. cbn [fst snd] in Hm.
  cbn [Nat.eqb] in Hs. by rewrite He, Hs, Hm.
Qed.

(** C8, as amended: editing the end time at index 0 sets the global
    start time and leaves the segments to the effect that recalculates
    them from it.  At an index above 0 of a recalculated
    list, entering the time of day [newEndTime] stores the custom duration
    [max(1, endMinutes - startMinutes)], 1440 added to [endMinutes] when
    it is below [startMinutes], which puts the segment in fixed-duration
    mode; the recalculation that follows gives the row that very end time
    when [newEndTime] differs from the start time of the row, and the
    start time plus one minute when it equals it. *)
Theorem end_time_edit :
  (∀ st newEndTime,
     ∃ st', handleEndTimeChange st 0 newEndTime = Some st'
       ∧ stStartTime st' = newEndTime
       ∧ stSegments st' = stSegments st
       ∧ ∀ s, stSegments (startTimeEffect st') !! 0%nat = Some s →
              startTime s = newEndTime)
  ∧ (∀ st segs0 i seg newEndTime hs ms he me,
       (0 < i)%nat →
       stSegments st = recalculateSegments segs0 (stStartTime st) →
       stSegments st !! i = Some seg →
       timeOfDay (startTime seg) = Some (hs, ms) →
       timeOfDay newEndTime = Some (he, me) →
       ∃ st' seg',
         handleEndTimeChange st i newEndTime = Some st'
         ∧ stStartTime st' = stStartTime st
         ∧ stSegments st' !! i = Some seg'
         ∧ customDurationMins seg'
           = Some (clampedDuration (parseTime (startTime seg))
                     (parseTime newEndTime))
         ∧ targetTimeMins seg'
           = clampedDuration (parseTime (startTime seg))
               (parseTime newEndTime)
         ∧ startTime seg' = startTime seg
         ∧ (newEndTime ≠ startTime seg → endTime seg' = newEndTime)
         ∧ (newEndTime = startTime seg →
            customDurationMins seg' = Some (num 1)
            ∧ endTime seg' = addMinutes (startTime seg) (num 1))).
Proof.
  split.
  { intros st newEndTime. exists (setStartTime st newEndTime).
    do 3 (split; [done|]). intros s. apply first_row_startTime. }
  intros st segs0 i seg newEndTime hs ms he me Hi Hst Hseg Hs He.
  apply timeOfDay_clock in Hs as (Hs & ? & ?).
  apply timeOfDay_clock in He as (-> & ? & ?).
  set (g := stStartTime st) in *.
  set (d := impliedDuration (startTime seg) (clock he me)).
  set (updated := <[i := withCustomDuration seg d]> (stSegments st)).
  pose proof (lookup_lt_Some _ _ _ Hseg) as Hlen.
  exists (setSegments st (recalculateSegments updated g)),
         (rowAt g updated i (withCustomDuration seg d)).
  split.
  { unfold handleEndTimeChange. destruct i as [|i]; [lia|].
    cbn [Nat.eqb]. by rewrite Hseg. }
  split; [done|]. split.
  { cbn [setSegments stSegments]. rewrite recalculateSegments_lookup.
    unfold updated. by rewrite list_lookup_insert_eq. }
  assert (startTime seg
          = currentClockTime
              (runAfter g (initialRunning g) 0 (take i updated))) as Hcur.
  { unfold updated. rewrite take_insert_ge by lia. rewrite Hst.
    apply recalculated_startTime; [done|]. by rewrite <- Hst. }
  assert (d = num (minutesApart (hs * 60 + ms) (he * 60 + me))) as Hd.
  { unfold d. rewrite Hs. by apply impliedDuration_clock. }
  assert ((d >? num 0)%js = true) as Hpos.
  { rewrite Hd. unfold JS.gt. rewrite num_lt.
    apply bool_decide_eq_true_2. unfold minutesApart. lia. }
  destruct (custom_duration_row g
              (runAfter g (initialRunning g) 0 (take i updated))
              i seg d Hi Hpos) as (Hc & Hm & Hstart & Hend).
  fold (rowAt g updated i (withCustomDuration seg d)) in Hc, Hm, Hstart, Hend.
  rewrite <- Hcur in Hstart, Hend.
  assert (clampedDuration (parseTime (startTime seg))
            (parseTime (clock he me)) = d) as ->.
  { rewrite Hs, Hd. by apply clampedDuration_clock. }
  do 3 (split; [done|]). split.
  - intros Hne. rewrite Hend, Hd, Hs. apply addMinutes_apart; try done.
    intros [= -> ->]. by rewrite Hs in Hne.
  - intros Heq. rewrite Hs in Heq. apply clock_inj in Heq; [|done..].
    injection Heq as -> ->.
    assert (d = num 1) as Hone.
    { rewrite Hd. unfold minutesApart.
      rewrite bool_decide_eq_false_2 by lia. f_equal. lia. }
    by rewrite Hc, Hend, Hone.
Qed.

(** Equality of two closed numbers, by evaluation. *)
Ltac number_eq :=
  vm_compute;
  first [ reflexivity | f_equal; apply Qc_is_canon; reflexivity ].

(** C8, as stated, fails when the end time entered equals the start time
    of the row: in the example plan row 2 starts at 09:35; entering 09:35
    as its end time stores a duration of one minute, and the
    recalculation gives the row the end time 09:36. *)
Lemma end_time_equal_to_start_not_reproduced :
  ∃ st' seg',
    handleEndTimeChange exampleEditor 2 (js "09:35") = Some st'
    ∧ stSegments st' !! 2%nat = Some seg'
    ∧ startTime seg' = js "09:35"
    ∧ customDurationMins seg' = Some (num 1)
    ∧ endTime seg' = js "09:36"
    ∧ endTime seg' ≠ js "09:35".
Proof.
  eexists _, _. do 5 (split; [vm_compute; reflexivity|]).
  vm_compute. discriminate.
Qed.

(** An end-time edit that is reproduced: row 2 of the example plan, which
    starts at 09:35, given the end time 10:30, and given 09:00, which is
    on the next day. *)
Lemma end_time_edit_witness :
  (∃ st' seg',
     handleEndTimeChange exampleEditor 2 (js "10:30") = Some st'
     ∧ stSegments st' !! 2%nat = Some seg'
     ∧ customDurationMins seg' = Some (num 55)
     ∧ endTime seg' = js "10:30")
  ∧ (∃ st' seg',
       handleEndTimeChange exampleEditor 2 (js "09:00") = Some st'
       ∧ stSegments st' !! 2%nat = Some seg'
       ∧ customDurationMins seg' = Some (num 1405)
       ∧ endTime seg' = js "09:00").
Proof.
  split.
  - destruct (proj2 end_time_edit exampleEditor examplePlan 2%nat
                (rowAt (js "07:00") examplePlan 2
                   (inputRow "B" (num 3) (num 0) (num 8) (Some (num 30))))
                (js "10:30") 9 35 10 30)
      as (st' & seg' & Hst & _ & Hseg & Hc & _ & _ & Hend & _);
      [lia | reflexivity | vm_compute; reflexivity
      | vm_compute; reflexivity | vm_compute; reflexivity |].
    exists st', seg'. split; [done|]. split; [done|]. split.
    + rewrite Hc. f_equal. number_eq.
    + apply Hend. vm_compute. discriminate.
  - destruct (proj2 end_time_edit exampleEditor examplePlan 2%nat
                (rowAt (js "07:00") examplePlan 2
                   (inputRow "B" (num 3) (num 0) (num 8) (Some (num 30))))
                (js "09:00") 9 35 9 0)
      as (st' & seg' & Hst & _ & Hseg & Hc & _ & _ & Hend & _);
      [lia | reflexivity | vm_compute; reflexivity
      | vm_compute; reflexivity | vm_compute; reflexivity |].
    exists st', seg'. split; [done|]. split; [done|]. split.
    + rewrite Hc. f_equal. number_eq.
    + apply Hend. vm_compute. discriminate.
Defined.

(** ** Appending a row *)

Lemma Qtruncate_Z z : JS.Qtruncate (Qc_of_Z z) = z.
Proof.
  unfold JS.Qtruncate. destruct (Qc_ltb _ _).
  - apply Qceiling_Z.
  - apply Qfloor_Z.
Qed.

(** The label of the appended row is one code unit, the first code unit
    of the last label plus one: the test on the length of [nextChar]
    never selects the placeholder. *)
Lemma newRow_label newId c rest :
  name (newRow newId (c :: rest))
  = [Z.to_N ((Z.of_N c + 1) mod 65536)].
Proof.
  unfold newRow, fromCharCode, charCodeAt.
  cbn [lookup list_lookup length Nat.ltb Nat.leb createEmptySegment name].
  rewrite num_add. unfold ToUint16, num. by rewrite Qtruncate_Z.
Qed.

(** After a row with an empty name, [charCodeAt] gives NaN and the label
    is the code unit 0. *)
Lemma newRow_label_empty newId : name (newRow newId []) = [0%N].
Proof. reflexivity. Qed.

Lemma newRow_inputs newId lastChar :
  splitDistKm (newRow newId lastChar) = num 0
  ∧ splitElevM (newRow newId lastChar) = num 0
  ∧ targetEPH (newRow newId lastChar) = num 10
  ∧ customDurationMins (newRow newId lastChar) = None.
Proof. done. Qed.

Lemma addRow_appends st newId lastSeg :
  stSegments st !! (length (stSegments st) - 1)%nat = Some lastSeg →
  addRow st newId
  = Some (setSegments st
            (recalculateSegments
               (stSegments st ++ [newRow newId (name lastSeg)])
               (stStartTime st))).
Proof. intros Hlast. unfold addRow. by rewrite Hlast. Qed.

(** C9, on the code: after a last row labelled Z the appended row has
    zero inputs and the target intensity 10, and it is labelled with the
    next code unit, the bracket [[], described as "Z To [": the
    placeholder X is not used. *)
Theorem addRow_past_Z :
  ∃ st' row,
    addRow editorUpToZ (js "new") = Some st'
    ∧ name <$> stSegments st' = [js "Start"; js "Y"; js "Z"; js "["]
    ∧ stSegments st' !! 3%nat = Some row
    ∧ name row = js "["
    ∧ name row ≠ js "X"
    ∧ description row = js "Z To ["
    ∧ splitDistKm row = num 0 ∧ splitElevM row = num 0
    ∧ targetEPH row = num 10.
Proof.
  eexists _, _. do 4 (split; [vm_compute; reflexivity|]).
  split; [vm_compute; discriminate|].
  do 3 (split; [vm_compute; reflexivity|]). vm_compute. reflexivity.
Qed.

(** ** The properties on the example plan *)

Local Open Scope js_scope.

(** Row 1 of the example plan: 13.2 km and 1260 m at 10 EP per hour take
    2.58 hours; row 3, whose target intensity is 0, takes its effort score
    in hours. *)
Lemma fixed_intensity_witness :
  (∃ s, recalculateSegments examplePlan (js "07:00") !! 1%nat = Some s
     ∧ targetEPH s = num 10
     ∧ targetTimeHours s = ep s / num 10
     ∧ is_NaN (targetTimeHours s) = false)
  ∧ (∃ s, recalculateSegments examplePlan (js "07:00") !! 3%nat = Some s
       ∧ targetEPH s = num 0
       ∧ targetTimeHours s = ep s
       ∧ is_NaN (targetTimeHours s) = false).
Proof.
  split.
  - destruct (fixed_intensity examplePlan (js "07:00") 1
                (inputRow "A" (dec 132 10) (num 1260) (num 10) None))
      as (s & Hs & HE & Hpos & _ & _ & Hfin); [lia | done | done |].
    exists s. split; [done|]. split; [done|]. split.
    + apply Hpos. vm_compute. reflexivity.
    + by apply Hfin.
  - destruct (fixed_intensity examplePlan (js "07:00") 3
                (inputRow "C" (num 2) (num 50) (num 0) None))
      as (s & Hs & HE & _ & Hzero & _ & Hfin); [lia | done | done |].
    exists s. split; [done|]. split; [done|]. split.
    + by apply Hzero.
    + by apply Hfin.
Defined.

(** Row 2 of the example plan has the custom duration 30 and the target
    intensity 8. *)
Lemma fixed_duration_witness :
  ∃ s, recalculateSegments examplePlan (js "07:00") !! 2%nat = Some s
    ∧ targetTimeMins s = num 30
    ∧ targetTimeHours s = num 30 / num 60
    ∧ targetEPH s = num 8.
Proof.
  destruct (fixed_duration examplePlan (js "07:00") 2
              (inputRow "B" (num 3) (num 0) (num 8) (Some (num 30)))
              (num 30))
    as (s & Hs & Hm & Hh & HE & _);
    [lia | done | done | vm_compute; reflexivity |].
  by exists s.
Defined.

(** The start row of the example plan stores a distance, an elevation, a
    target intensity and a custom duration. *)
Lemma start_row_zero_witness :
  ∃ s, recalculateSegments examplePlan (js "07:00") !! 0%nat = Some s
    ∧ customDurationMins s = Some (num 45)
    ∧ targetEPH s = num 7
    ∧ targetTimeHours s = num 0 ∧ targetTimeMins s = num 0
    ∧ accuEPH s = num 0.
Proof.
  exists (rowAt (js "07:00") examplePlan 0
            (inputRow "Start" (num 5) (num 100) (num 7) (Some (num 45)))).
  split; [reflexivity|]. split; [reflexivity|]. split; [reflexivity|].
  apply (start_row_zero examplePlan (js "07:00")). reflexivity.
Defined.

(** In the example plan row 1 ends at 09:35, where row 2 starts. *)
Lemma timeline_continuity_witness :
  ∃ a b,
    recalculateSegments examplePlan (js "07:00") !! 1%nat = Some a
    ∧ recalculateSegments examplePlan (js "07:00") !! 2%nat = Some b
    ∧ endTime a = js "09:35"
    ∧ startTime b = endTime a.
Proof.
  exists (rowAt (js "07:00") examplePlan 1
            (inputRow "A" (dec 132 10) (num 1260) (num 10) None)),
         (rowAt (js "07:00") examplePlan 2
            (inputRow "B" (num 3) (num 0) (num 8) (Some (num 30)))).
  split; [reflexivity|]. split; [reflexivity|].
  split; [vm_compute; reflexivity|].
  apply (proj2 (timeline_continuity examplePlan (js "07:00")) 1%nat);
    reflexivity.
Defined.


(** ** Values quoted by the specification *)

Example addMinutes_overnight : addMinutes (js "23:50") (num 20) = js "00:10".
Proof. vm_compute. reflexivity. Qed.

Example formatTime_wraps : formatTime (num 1500) = js "01:00".
Proof. vm_compute. reflexivity. Qed.

Example formatTime_rounds : formatTime (dec 5748 10) = js "09:35".
Proof. vm_compute. reflexivity. Qed.

Example formatTime_NaN : formatTime NaN = js "NaN:NaN".
Proof. vm_compute. reflexivity. Qed.

Example parseTime_empty : parseTime (js "") = NaN.
Proof. vm_compute. reflexivity. Qed.

(** Start at 07:00, then 13.2 km and 1260 m at 10 EP per hour: 25.8 EP,
    2.58 hours, 154.8 minutes, until 09:35. *)
Example first_leg :
  ∃ s, recalculateSegments examplePlan (js "07:00") !! 1%nat = Some s
    ∧ ep s = dec 258 10
    ∧ targetTimeHours s = dec 258 100
    ∧ targetTimeMins s = dec 1548 10
    ∧ startTime s = js "07:00"
    ∧ endTime s = addMinutes (js "07:00") (dec 1548 10)
    ∧ endTime s = js "09:35".
Proof.
  eexists. split; [vm_compute; reflexivity|].
  do 3 (split; [number_eq|]).
  do 2 (split; [vm_compute; reflexivity|]). vm_compute. reflexivity.
Qed.

(** The start row of the example plan keeps an effort score of its own
    (5 km and 100 m: 6 EP), and the totals of the last row and of the
    saved session count it. *)
Example start_row_counts :
  ∃ s0 s3 session,
    recalculateSegments examplePlan (js "07:00") !! 0%nat = Some s0
    ∧ recalculateSegments examplePlan (js "07:00") !! 3%nat = Some s3
    ∧ handleSave exampleEditor (js "id") (js "2026-01-01") = Some session
    ∧ ep s0 = num 6
    ∧ totalDistKm s3 = dec 232 10
    ∧ accuElevM s3 = num 1410
    ∧ Session.totalEP session = dec 373 10.
Proof.
  eexists _, _, _. do 3 (split; [vm_compute; reflexivity|]).
  do 3 (split; [number_eq|]). number_eq.
Qed.

(** * Further properties *)

(** ** Clock times: parsing, printing and adding *)

(** X1: printing what [parseTime] read from a time of day "HH:MM" gives
    the string back. *)
Theorem formatTime_parseTime t h m :
  timeOfDay t = Some (h, m) → formatTime (parseTime t) = t.
Proof.
  intros (-> & Hh & Hm)%timeOfDay_clock.
  rewrite parseTime_clock by lia. rewrite formatTime_num by lia.
  f_equal; Z.to_euclidean_division_equations; lia.
Qed.

Lemma formatTime_parseTime_witness :
  formatTime (parseTime (js "23:59")) = js "23:59".
Proof. apply (formatTime_parseTime (js "23:59") 23 59). reflexivity. Defined.

Lemma formatTime_Fin (q : Qc) :
  (0 <= q)%Qc →
  (0 ≤ Qfloor (q + Q2Qc (1 # 2))%Qc)%Z
  ∧ formatTime (Fin q)
    = clock ((Qfloor (q + Q2Qc (1 # 2))%Qc / 60) mod 24)
        (Qfloor (q + Q2Qc (1 # 2))%Qc mod 60).
Proof.
  intros Hq.
  assert (0 ≤ Qfloor (q + Q2Qc (1 # 2))%Qc)%Z as Hz.
  { change 0%Z with (Qfloor 0). apply Qfloor_resp_le.
    change (0 <= q + Q2Qc (1 # 2))%Qc.
    apply Qcplus_nonneg_nonneg; done. }
  split; [done|].
  unfold formatTime. cbn [JS.Math_round].
  rewrite Math_floor_div, !num_rem by lia.
  by rewrite !Z.rem_mod_nonneg by (try apply Z.div_pos; lia).
Qed.

(** X2: the clock time printed for a number of minutes from 0 to below
    2^31 is a time of day "HH:MM", and reading it back gives the
    minutes, rounded to the nearest integer (halves up), modulo one day
    of 1440 minutes. *)
Theorem parseTime_formatTime (q : Qc) :
  (0 <= q)%Qc → (q < Qc_of_Z (2 ^ 31))%Qc →
  timeOfDay (formatTime (Fin q))
  = Some ((Qfloor (q + Q2Qc (1 # 2))%Qc / 60) mod 24,
          Qfloor (q + Q2Qc (1 # 2))%Qc mod 60)%Z
  ∧ parseTime (formatTime (Fin q))
    = num (Qfloor (q + Q2Qc (1 # 2))%Qc mod 1440).
Proof.
  intros Hq _. destruct (formatTime_Fin q Hq) as [Hz ->]. split.
  - apply timeOfDay_of_clock; Z.to_euclidean_division_equations; lia.
  - rewrite parseTime_clock by (Z.to_euclidean_division_equations; lia).
    f_equal. Z.to_euclidean_division_equations; lia.
Qed.

(** 1500.4 minutes are printed as 01:00, which reads back as 60. *)
Lemma parseTime_formatTime_witness :
  formatTime (dec 15004 10) = js "01:00"
  ∧ parseTime (formatTime (dec 15004 10)) = num 60.
Proof.
  destruct (parseTime_formatTime (Q2Qc (15004 # 10))) as [_ Hp];
    [done | done |].
  split; [vm_compute; reflexivity|]. exact Hp.
Defined.

Lemma addMinutes_clock_twice h m (a b : Z) :
  (0 ≤ h < 24)%Z → (0 ≤ m < 60)%Z → (0 ≤ a)%Z → (0 ≤ b)%Z →
  addMinutes (addMinutes (clock h m) (num a)) (num b)
  = addMinutes (clock h m) (num (a + b)).
Proof.
  intros Hh Hm Ha Hb.
  rewrite (addMinutes_clock h m a) by lia.
  rewrite addMinutes_clock by (Z.to_euclidean_division_equations; lia).
  rewrite addMinutes_clock by lia.
  f_equal; Z.to_euclidean_division_equations; lia.
Qed.

(** X3: adding whole minutes to a time of day in two steps is adding
    their sum, for minutes that sum to less than 2^31. *)
Theorem addMinutes_addMinutes t h m (a b : Z) :
  timeOfDay t = Some (h, m) → (0 ≤ a)%Z → (0 ≤ b)%Z → (a + b < 2 ^ 31)%Z →
  addMinutes (addMinutes t (num a)) (num b) = addMinutes t (num (a + b)).
Proof.
  intros (-> & Hh & Hm)%timeOfDay_clock Ha Hb _.
  by apply addMinutes_clock_twice.
Qed.

Lemma addMinutes_addMinutes_witness :
  addMinutes (addMinutes (js "23:50") (num 20)) (num 75)
  = addMinutes (js "23:50") (num 95).
Proof.
  apply (addMinutes_addMinutes (js "23:50") 23 50 20 75);
    [reflexivity | lia | lia | lia].
Defined.

(** X4: adding whole days, of less than 2^31 minutes together, to a
    time of day gives the same time of day: the clock wraps at 24
    hours. *)
Theorem addMinutes_whole_days t h m (days : Z) :
  timeOfDay t = Some (h, m) → (0 ≤ days)%Z → (1440 * days < 2 ^ 31)%Z →
  addMinutes t (num (1440 * days)) = t.
Proof.
  intros (-> & Hh & Hm)%timeOfDay_clock Hd _.
  rewrite addMinutes_clock by lia.
  f_equal; Z.to_euclidean_division_equations; lia.
Qed.

Lemma addMinutes_whole_days_witness :
  addMinutes (js "06:15") (num (1440 * 3)) = js "06:15".
Proof.
  apply (addMinutes_whole_days (js "06:15") 6 15 3);
    [reflexivity | lia | lia].
Defined.

Lemma num_div_mul a b : b ≠ 0%Z → num a / num b * num b = num a.
Proof.
  intros Hb. unfold num. cbn [JS.div]. rewrite Qc_eqb_Z0.
  rewrite bool_decide_eq_false_2 by done. cbn [JS.mul]. f_equal.
  rewrite Qcmult_comm. apply Qcmult_div_r.
  rewrite <- Z2Qc_inj_0. by intros ?%Z2Qc_inj.
Qed.

Lemma Qc_div_lt_Z a b c :
  (0 < b)%Z →
  (Qc_of_Z a / Qc_of_Z b < Qc_of_Z c)%Qc ↔ (a < c * b)%Z.
Proof.
  intros Hb.
  assert (Hbq : (0 < Qc_of_Z b)%Qc).
  { rewrite <- Z2Qc_inj_0. by apply (proj1 (Z2Qc_inj_lt 0 b)). }
  assert (Qc_of_Z b ≠ 0%Qc) as Hne.
  { intros E. rewrite E in Hbq. by apply Qclt_not_eq in Hbq. }
  rewrite (Qcmult_lt_mono_pos_r _ _ (Qc_of_Z b)) by done.
  unfold Qcdiv. rewrite <- Qcmult_assoc, Qcmult_inv_l, Qcmult_1_r by done.
  rewrite <- Z2Qc_inj_mul. symmetry. apply Z2Qc_inj_lt.
Qed.

Lemma Qc_div_le_Z a b c :
  (0 < b)%Z →
  (Qc_of_Z c <= Qc_of_Z a / Qc_of_Z b)%Qc ↔ (c * b ≤ a)%Z.
Proof.
  intros Hb. rewrite Qcle_ngt, Qc_div_lt_Z by done. lia.
Qed.

(** X5: between two times of day, [timeDiffInHours] is the number of
    minutes from the first to the next occurrence of the second, over
    60: at least 0 and below 24 hours, 0 when the two are equal; and
    adding that many minutes to the first gives the second. *)
Theorem timeDiffInHours_between start finish hs ms he me :
  timeOfDay start = Some (hs, ms) →
  timeOfDay finish = Some (he, me) →
  timeDiffInHours start finish
  = num ((he * 60 + me - (hs * 60 + ms)) mod 1440) / num 60
  ∧ (num 0 <=? timeDiffInHours start finish) = true
  ∧ (timeDiffInHours start finish <? num 24) = true
  ∧ addMinutes start (timeDiffInHours start finish * num 60) = finish.
Proof.
  intros (-> & Hhs & Hms)%timeOfDay_clock (-> & Hhe & Hme)%timeOfDay_clock.
  set (d := ((he * 60 + me - (hs * 60 + ms)) mod 1440)%Z).
  assert (0 ≤ d < 1440)%Z as Hd
    by (unfold d; Z.to_euclidean_division_equations; lia).
  assert (timeDiffInHours (clock hs ms) (clock he me) = num d / num 60)
    as ->.
  { unfold timeDiffInHours. rewrite !parseTime_clock by lia.
    rewrite num_lt, num_mul. do 2 f_equal.
    case_bool_decide; rewrite ?num_add, num_sub; f_equal; unfold d;
      Z.to_euclidean_division_equations; lia. }
  split; [done|]. split; [|split].
  - unfold num. cbn [JS.div]. rewrite Qc_eqb_Z0.
    rewrite bool_decide_eq_false_2 by lia. cbn [JS.le].
    apply negb_true_iff, bool_decide_eq_false_2, Qcle_ngt.
    apply Qc_div_le_Z; lia.
  - unfold num. cbn [JS.div]. rewrite Qc_eqb_Z0.
    rewrite bool_decide_eq_false_2 by lia. cbn [JS.lt].
    apply bool_decide_eq_true_2. apply Qc_div_lt_Z; lia.
  - rewrite num_div_mul by lia. rewrite addMinutes_clock by lia.
    f_equal; unfold d; Z.to_euclidean_division_equations; lia.
Qed.

(** From 23:50 to 00:10 there are 20 minutes. *)
Lemma timeDiffInHours_between_witness :
  timeDiffInHours (js "23:50") (js "00:10") = num 20 / num 60
  ∧ addMinutes (js "23:50")
      (timeDiffInHours (js "23:50") (js "00:10") * num 60) = js "00:10".
Proof.
  destruct (timeDiffInHours_between (js "23:50") (js "00:10") 23 50 0 10)
    as (Hd & _ & _ & Hadd); [reflexivity | reflexivity |].
  split; [exact Hd | exact Hadd].
Defined.

(** ** A start time that is not a time *)

Lemma parseTime_no_colon t : 58%N ∉ t → parseTime t = NaN.
Proof.
  intros Ht. unfold parseTime. rewrite split_no_sep by done.
  cbn [fmap list_fmap lookup list_lookup ToNumber default from_option].
  by destruct (_ * _).
Qed.

Lemma addMinutes_NaN t minutes :
  parseTime t = NaN → addMinutes t minutes = js "NaN:NaN".
Proof. intros Ht. unfold addMinutes. by rewrite Ht. Qed.

Lemma recalculateFrom_NaN g segs : ∀ run index,
  parseTime g = NaN →
  parseTime (currentClockTime run) = NaN →
  Forall (λ s, endTime s = js "NaN:NaN") (recalculateFrom g run index segs).
Proof.
  induction segs as [|seg rest IH]; intros run index Hg Hrun; [done|].
  rewrite recalculateFrom_cons.
  destruct (row_times g run index seg) as [Hs He].
  assert (endTime (recalculateSegment g run index seg).1 = js "NaN:NaN")
    as Hend.
  { rewrite He. apply addMinutes_NaN. rewrite Hs.
    by destruct (index =? 0)%nat. }
  constructor; [done|]. apply IH; [done|].
  destruct (run_next g run index seg) as (_ & _ & _ & ->).
  by rewrite Hend.
Qed.

(** X6: when the global start time does not parse to a number, as the
    empty string of a cleared time input, every row ends at "NaN:NaN". *)
Theorem recalculate_unparsed_start segs g :
  parseTime g = NaN →
  Forall (λ s, endTime s = js "NaN:NaN") (recalculateSegments segs g).
Proof. intros Hg. by apply recalculateFrom_NaN. Qed.

Lemma recalculate_unparsed_start_witness :
  Forall (λ s, endTime s = js "NaN:NaN")
    (recalculateSegments examplePlan (js "")).
Proof. apply recalculate_unparsed_start. reflexivity. Defined.

(** ** The pass and the inputs *)

Lemma rowAt_sameInputs g segs i seg : sameInputs (rowAt g segs i seg) seg.
Proof. unfold rowAt. apply row_inputs. Qed.

(** X7: the pass returns one row per segment and changes none of the
    stored inputs: identifier, name, description, distance, elevation,
    target intensity and custom duration. *)
Theorem recalculate_keeps_inputs segs g :
  Forall2 (λ seg s, sameInputs s seg) segs (recalculateSegments segs g).
Proof.
  apply recalculateSegments_Forall2. intros i seg _.
  apply rowAt_sameInputs.
Qed.

Lemma recalculateSegment_sameInputs g run index a b :
  sameInputs a b →
  recalculateSegment g run index a = recalculateSegment g run index b.
Proof.
  intros (Hid & Hname & Hdesc & Hdist & Helev & HEPH & Hcustom).
  unfold recalculateSegment, duration.
  by rewrite Hid, Hname, Hdesc, Hdist, Helev, HEPH, Hcustom.
Qed.

Lemma recalculateFrom_sameInputs g l l' :
  Forall2 sameInputs l l' →
  ∀ run index,
    recalculateFrom g run index l = recalculateFrom g run index l'.
Proof.
  induction 1 as [|a b l l' Hab _ IH]; intros run index; [done|].
  rewrite !recalculateFrom_cons.
  by rewrite (recalculateSegment_sameInputs _ _ _ a b Hab), IH.
Qed.

Lemma recalculate_inputs_only l l' g :
  Forall2 sameInputs l l' →
  recalculateSegments l g = recalculateSegments l' g.
Proof. intros Hll. by apply recalculateFrom_sameInputs. Qed.

(** X8: the pass reads only the stored inputs: two lists whose segments
    store the same inputs give the same rows, whatever their derived
    fields hold. *)
Theorem recalculate_reads_inputs l l' g :
  Forall2 sameInputs l l' →
  recalculateSegments l g = recalculateSegments l' g.
Proof. intros Hll. by apply recalculateFrom_sameInputs. Qed.

(** The example plan with every effort score overwritten by 99. *)
Lemma recalculate_reads_inputs_witness :
  recalculateSegments ((λ s, setField s (EditEp (num 99))) <$> examplePlan)
    (js "07:00")
  = recalculateSegments examplePlan (js "07:00").
Proof.
  apply recalculate_reads_inputs.
  repeat constructor.
Defined.

(** X9: the rows before a position do not depend on the segments from
    that position on: the rows of a list are the first rows of any list
    that extends it. *)
Theorem recalculate_prefix l1 l2 g :
  take (length l1) (recalculateSegments (l1 ++ l2) g)
  = recalculateSegments l1 g.
Proof.
  unfold recalculateSegments. rewrite recalculateFrom_take.
  by rewrite take_app_length.
Qed.

(** ** Running totals and the timeline on plain inputs *)

Lemma nonNegative_Fin (q : Qc) : nonNegative (Fin q) ↔ (0 <= q)%Qc.
Proof.
  unfold nonNegative, num. cbn [JS.le]. rewrite Z2Qc_inj_0.
  unfold Qc_ltb. rewrite negb_true_iff, bool_decide_eq_false.
  symmetry. apply Qcle_ngt.
Qed.

Lemma nonNegative_cases x :
  nonNegative x → x = Infinity false ∨ ∃ q, x = Fin q ∧ (0 <= q)%Qc.
Proof.
  destruct x as [|[]|q]; try done; [by left|].
  intros Hq%nonNegative_Fin. right. eauto.
Qed.

Lemma nonNegative_add x y :
  nonNegative x → nonNegative y →
  nonNegative (x + y) ∧ (x <=? x + y) = true.
Proof.
  intros [->|(p & -> & Hp)]%nonNegative_cases
         [->|(q & -> & Hq)]%nonNegative_cases; try done.
  cbn [JS.add]. split.
  - apply nonNegative_Fin. by apply Qcplus_nonneg_nonneg.
  - cbn [JS.le]. unfold Qc_ltb.
    rewrite negb_true_iff, bool_decide_eq_false. apply Qcle_ngt.
    rewrite <- (Qcplus_0_r p) at 1. by apply Qcplus_le_mono_l.
Qed.

Lemma positive_cases y :
  (y >? num 0) = true → y = Infinity false ∨ ∃ q, y = Fin q ∧ (0 < q)%Qc.
Proof.
  destruct y as [|[]|q]; try done; [by left|].
  unfold JS.gt, num. cbn [JS.lt]. rewrite Z2Qc_inj_0.
  intros Hq%bool_decide_eq_true_1. right. eauto.
Qed.

(** A finite number that is not negative, over a positive number. *)
Lemma div_nonNegative x y :
  is_finite x = true → nonNegative x → (y >? num 0) = true →
  is_finite (x / y) = true ∧ nonNegative (x / y).
Proof.
  destruct x as [| |p]; try done. intros _ Hp%nonNegative_Fin.
  intros [->|(q & -> & Hq)]%positive_cases.
  - split; [done|]. by apply nonNegative_Fin.
  - cbn [JS.div]. unfold Qc_eqb.
    rewrite bool_decide_eq_false_2
      by (intros ->; by apply Qclt_not_eq in Hq).
    split; [done|]. apply nonNegative_Fin.
    apply Qcmult_nonneg_nonneg; [done|].
    apply Qclt_le_weak. by apply Qcinv_pos.
Qed.

Lemma positive_num z : (0 < z)%Z → (num z >? num 0) = true.
Proof.
  intros Hz. unfold JS.gt. rewrite num_lt. by apply bool_decide_eq_true_2.
Qed.

Lemma mul_nonNegative x (z : Z) :
  (0 ≤ z)%Z → is_finite x = true → nonNegative x →
  is_finite (x * num z) = true ∧ nonNegative (x * num z).
Proof.
  destruct x as [| |p]; try done. intros Hz _ Hp%nonNegative_Fin.
  split; [done|]. cbn [JS.mul num]. apply nonNegative_Fin.
  apply Qcmult_nonneg_nonneg; [done|].
  rewrite <- Z2Qc_inj_0. by apply (proj1 (Z2Qc_inj_le 0 z)).
Qed.

(** On plain inputs the effort score and the two durations of a row are
    finite and not negative. *)
Lemma plain_row g run index seg :
  plainInputs seg →
  (is_finite (ep (recalculateSegment g run index seg).1) = true
   ∧ nonNegative (ep (recalculateSegment g run index seg).1))
  ∧ (is_finite (targetTimeHours (recalculateSegment g run index seg).1)
     = true
     ∧ nonNegative (targetTimeHours (recalculateSegment g run index seg).1))
  ∧ (is_finite (targetTimeMins (recalculateSegment g run index seg).1)
     = true
     ∧ nonNegative (targetTimeMins (recalculateSegment g run index seg).1)).
Proof.
  intros (Hdf & Hdn & Hef & Hen & Hcustom).
  assert (is_finite (calculateEP (splitDistKm seg) (splitElevM seg)) = true
          ∧ nonNegative (calculateEP (splitDistKm seg) (splitElevM seg)))
    as [Hepf Hepn].
  { unfold calculateEP.
    destruct (div_nonNegative (splitElevM seg) (num 100))
      as [Hqf Hqn]; [done | done | by apply positive_num |].
    split; [by apply add_finite | by apply nonNegative_add]. }
  rewrite row_ep. split; [done|].
  destruct (row_duration g run index seg) as [-> ->]. rewrite row_ep.
  unfold duration. destruct (index =? 0)%nat; [done|].
  assert (∀ safeEPH, (safeEPH >? num 0) = true →
    (is_finite (calculateEP (splitDistKm seg) (splitElevM seg) / safeEPH)
     = true
     ∧ nonNegative
         (calculateEP (splitDistKm seg) (splitElevM seg) / safeEPH))
    ∧ is_finite
        (calculateEP (splitDistKm seg) (splitElevM seg) / safeEPH
         * num 60) = true
      ∧ nonNegative
          (calculateEP (splitDistKm seg) (splitElevM seg) / safeEPH
           * num 60)) as Hintensity.
  { intros safeEPH Hsafe.
    destruct (div_nonNegative _ safeEPH Hepf Hepn Hsafe) as [Hf Hn].
    split; [done|]. by apply mul_nonNegative. }
  assert (((if targetEPH seg >? num 0 then targetEPH seg else num 1)
           >? num 0) = true) as Hsafe.
  { destruct (targetEPH seg >? num 0) eqn:E; [done|].
    by apply positive_num. }
  destruct (customDurationMins seg) as [c|]; [|by apply Hintensity].
  destruct (c >? num 0) eqn:Hc; [|by apply Hintensity].
  cbn [fst snd]. simpl in Hcustom.
  assert (nonNegative c) as Hcn.
  { destruct (positive_cases c Hc) as [->|(q & -> & Hq)]; [done|].
    apply nonNegative_Fin. by apply Qclt_le_weak. }
  split; [|done].
  by apply div_nonNegative; [| |apply positive_num].
Qed.

(** The totals that the callback leaves are not negative when it found
    them so, on plain inputs. *)
Lemma plain_totals g run index seg :
  plainInputs seg →
  nonNegative (runningDist run) → nonNegative (runningElev run) →
  nonNegative (runningTimeHours run) →
  (nonNegative (totalDistKm (recalculateSegment g run index seg).1)
   ∧ (runningDist run <=? totalDistKm (recalculateSegment g run index seg).1)
     = true)
  ∧ (nonNegative (accuElevM (recalculateSegment g run index seg).1)
     ∧ (runningElev run
        <=? accuElevM (recalculateSegment g run index seg).1) = true)
  ∧ (nonNegative (accuTimeHours (recalculateSegment g run index seg).1)
     ∧ (runningTimeHours run
        <=? accuTimeHours (recalculateSegment g run index seg).1) = true).
Proof.
  intros Hplain Hd He Ht.
  destruct (plain_row g run index seg Hplain) as (_ & [_ Hh] & _).
  destruct Hplain as (_ & Hdn & _ & Hen & _).
  destruct (row_totals g run index seg) as (-> & -> & ->).
  split; [|split]; by apply nonNegative_add.
Qed.

Lemma runAfter_nonNegative g done : ∀ run index,
  Forall plainInputs done →
  nonNegative (runningDist run) → nonNegative (runningElev run) →
  nonNegative (runningTimeHours run) →
  nonNegative (runningDist (runAfter g run index done))
  ∧ nonNegative (runningElev (runAfter g run index done))
  ∧ nonNegative (runningTimeHours (runAfter g run index done)).
Proof.
  induction done as [|seg rest IH]; intros run index Hall Hd He Ht;
    [done|].
  inversion_clear Hall as [|? ? Hseg Hrest]. simpl.
  destruct (plain_totals g run index seg Hseg Hd He Ht)
    as ([Hd' _] & [He' _] & [Ht' _]).
  destruct (run_next g run index seg) as (Hrd & Hre & Hrt & _).
  apply IH; [done|by rewrite Hrd|by rewrite Hre|by rewrite Hrt].
Qed.

Lemma consecutive_rows segs g i a b :
  recalculateSegments segs g !! i = Some a →
  recalculateSegments segs g !! S i = Some b →
  ∃ sb, segs !! S i = Some sb
    ∧ b = (recalculateSegment g
             (runAfter g (initialRunning g) 0 (take (S i) segs))
             (S i) sb).1
    ∧ runningDist (runAfter g (initialRunning g) 0 (take (S i) segs))
      = totalDistKm a
    ∧ runningElev (runAfter g (initialRunning g) 0 (take (S i) segs))
      = accuElevM a
    ∧ runningTimeHours (runAfter g (initialRunning g) 0 (take (S i) segs))
      = accuTimeHours a
    ∧ currentClockTime (runAfter g (initialRunning g) 0 (take (S i) segs))
      = endTime a.
Proof.
  intros (sa & Ha & ->)%recalculateSegments_lookup_Some
         (sb & Hb & ->)%recalculateSegments_lookup_Some.
  exists sb. split; [done|]. split; [done|].
  rewrite (runAfter_take_S _ _ _ _ Ha). apply run_next.
Qed.

(** X10: on plain inputs with finite target intensities the running
    totals never decrease from a row to the next: distance, elevation
    and hours. *)
Theorem totals_monotone segs g i a b :
  Forall plainInputs segs →
  Forall (λ seg, is_finite (targetEPH seg) = true) segs →
  recalculateSegments segs g !! i = Some a →
  recalculateSegments segs g !! S i = Some b →
  (totalDistKm a <=? totalDistKm b) = true
  ∧ (accuElevM a <=? accuElevM b) = true
  ∧ (accuTimeHours a <=? accuTimeHours b) = true.
Proof.
  intros Hall _ Ha Hb.
  destruct (consecutive_rows segs g i a b Ha Hb)
    as (sb & Hsb & -> & Hd & He & Ht & _).
  destruct (runAfter_nonNegative g (take (S i) segs) (initialRunning g) 0)
    as (Hnd & Hne & Hnt); [by apply Forall_take | done..|].
  destruct (plain_totals g
              (runAfter g (initialRunning g) 0 (take (S i) segs))
              (S i) sb) as ([_ Hdist] & [_ Helev] & [_ Htime]);
    [by eapply Forall_lookup_1 | done..|].
  by rewrite <- Hd, <- He, <- Ht.
Qed.

Lemma totals_monotone_witness :
  ∃ a b,
    recalculateSegments examplePlan (js "07:00") !! 1%nat = Some a
    ∧ recalculateSegments examplePlan (js "07:00") !! 2%nat = Some b
    ∧ (totalDistKm a <=? totalDistKm b) = true
    ∧ (accuElevM a <=? accuElevM b) = true
    ∧ (accuTimeHours a <=? accuTimeHours b) = true.
Proof.
  eexists _, _. split; [reflexivity|]. split; [reflexivity|].
  apply (totals_monotone examplePlan (js "07:00") 1);
    [repeat constructor | repeat constructor | reflexivity | reflexivity].
Defined.









(** ** The handlers of the editor *)

Lemma sameInputs_refl a : sameInputs a a.
Proof. by repeat split. Qed.

Lemma recalculateSegments_sameInputs segs g :
  Forall2 sameInputs (recalculateSegments segs g) segs.
Proof.
  apply Forall2_flip. apply recalculateSegments_Forall2.
  intros i seg _. apply rowAt_sameInputs.
Qed.

Lemma setSegments_same st : setSegments st (stSegments st) = st.
Proof. by destruct st. Qed.

Lemma recalculateSegments_take segs g n :
  take n (recalculateSegments segs g) = recalculateSegments (take n segs) g.
Proof. apply recalculateFrom_take. Qed.

(** A row in fixed-intensity mode, after the first. *)
Lemma intensity_row g run i seg :
  (0 < i)%nat →
  customDurationMins seg = None →
  targetTimeHours (recalculateSegment g run i seg).1
  = ep (recalculateSegment g run i seg).1
    / (if targetEPH seg >? num 0 then targetEPH seg else num 1)
  ∧ targetTimeMins (recalculateSegment g run i seg).1
    = targetTimeHours (recalculateSegment g run i seg).1 * num 60.
Proof.
  intros Hi Hmode. destruct (row_duration g run i seg) as [Hh Hm].
  unfold duration in Hh, Hm. rewrite Hmode in Hh, Hm.
  destruct i as [|i]; [lia|]. cbn [Nat.eqb fst snd] in Hh, Hm.
  by rewrite Hm, Hh.
Qed.

(** X13: editing the target intensity of a row after the first clears
    its custom duration: the row is in fixed-intensity mode again, with
    the new target, and for a positive target its duration is
    [ep / targetEPH] hours. *)
Theorem updateSegment_targetEPH st i seg value :
  (0 < i)%nat →
  stSegments st !! i = Some seg →
  ∃ st' s,
    updateSegment st i (EditTargetEPH value) = Some st'
    ∧ stSegments st' !! i = Some s
    ∧ customDurationMins s = None
    ∧ targetEPH s = value
    ∧ ep s = splitDistKm seg + splitElevM seg / num 100
    ∧ ((value >? num 0) = true →
       targetTimeHours s = ep s / value
       ∧ targetTimeMins s = ep s / value * num 60).
Proof.
  intros Hi Hseg.
  set (edited := clearCustomDuration (setField seg (EditTargetEPH value))).
  set (updated := <[i := edited]> (stSegments st)).
  exists (setSegments st (recalculateSegments updated (stStartTime st))),
         (rowAt (stStartTime st) updated i edited).
  split; [unfold updateSegment; by rewrite Hseg|].
  split.
  { cbn [setSegments stSegments]. rewrite recalculateSegments_lookup.
    unfold updated. rewrite list_lookup_insert_eq; [done|].
    by eapply lookup_lt_Some. }
  unfold rowAt.
  set (run := runAfter _ _ _ _).
  destruct (row_inputs (stStartTime st) run i edited)
    as (_ & _ & _ & _ & _ & HE & Hc).
  destruct (intensity_row (stStartTime st) run i edited Hi eq_refl)
    as [Hh Hm].
  pose proof (row_ep (stStartTime st) run i edited) as Hep.
  do 3 (split; [done|]). intros Hpos.
  cbn [edited clearCustomDuration setField targetEPH] in Hh.
  rewrite Hpos in Hh. by rewrite Hm, Hh.
Qed.

(** Row 2 of the example plan lasts 30 minutes by its custom duration;
    with the target intensity 6 typed in, its 3 EP take half an hour
    again, now by the intensity. *)
Lemma updateSegment_targetEPH_witness :
  ∃ st' s,
    updateSegment exampleEditor 2 (EditTargetEPH (num 6)) = Some st'
    ∧ stSegments st' !! 2%nat = Some s
    ∧ customDurationMins s = None
    ∧ targetTimeHours s = ep s / num 6.
Proof.
  destruct (updateSegment_targetEPH exampleEditor 2
              (rowAt (js "07:00") examplePlan 2
                 (inputRow "B" (num 3) (num 0) (num 8) (Some (num 30))))
              (num 6))
    as (st' & s & Hst & Hs & Hc & _ & _ & Hpos); [lia | reflexivity |].
  exists st', s. do 3 (split; [done|]). by apply Hpos.
Defined.

Lemma setField_derived seg e :
  derivedEdit e = true → sameInputs (setField seg e) seg.
Proof. destruct e; try done; intros _; by repeat split. Qed.

Lemma Forall2_insert_same (P : Segment → Segment → Prop) l i x y :
  (∀ a, P a a) → l !! i = Some y → P x y → Forall2 P (<[i := x]> l) l.
Proof.
  intros Hrefl Hy HP.
  rewrite <- (list_insert_id l i y Hy) at 2.
  apply Forall2_insert; [|done].
  by apply Forall_Forall2_diag, Forall_forall.
Qed.

(** X14: a derived field cannot be edited by hand: in a recalculated
    editor, [updateSegment] on a derived field of an existing row leaves
    the state as it was. *)
Theorem updateSegment_derived st i seg e :
  recalculated st →
  stSegments st !! i = Some seg →
  derivedEdit e = true →
  updateSegment st i e = Some st.
Proof.
  intros Hfix Hseg He. unfold updateSegment. rewrite Hseg.
  cbn [mbind option_bind]. f_equal.
  assert ((match e with
           | EditTargetEPH _ => clearCustomDuration (setField seg e)
           | _ => setField seg e
           end) = setField seg e) as -> by (by destruct e).
  rewrite (recalculate_inputs_only _ (stSegments st)).
  - rewrite Hfix. apply setSegments_same.
  - apply (Forall2_insert_same _ _ _ _ seg); [apply sameInputs_refl|done|].
    by apply setField_derived.
Qed.

Lemma updateSegment_derived_witness :
  updateSegment exampleEditor 1 (EditEndTime (js "12:00"))
  = Some exampleEditor.
Proof.
  apply (updateSegment_derived exampleEditor 1
           (rowAt (js "07:00") examplePlan 1
              (inputRow "A" (dec 132 10) (num 1260) (num 10) None)));
    [apply recalculateFrom_again | reflexivity | reflexivity].
Defined.

Lemma recalculated_take st n :
  recalculated st →
  recalculateSegments (take n (stSegments st)) (stStartTime st)
  = take n (stSegments st).
Proof.
  intros Hfix. rewrite <- recalculateSegments_take. by rewrite Hfix.
Qed.

(** X15: an edit of row [i] changes no row before it.  In a recalculated
    editor, after [updateSegment] at [i], and after [handleEndTimeChange]
    at [i > 0], there are as many rows as before and the first [i] rows
    are the same. *)
Theorem edits_keep_earlier_rows st i st' :
  recalculated st →
  (∃ e, updateSegment st i e = Some st')
  ∨ ((0 < i)%nat ∧ ∃ t, handleEndTimeChange st i t = Some st') →
  length (stSegments st') = length (stSegments st)
  ∧ take i (stSegments st') = take i (stSegments st).
Proof.
  intros Hfix Hedit.
  assert (∃ x, stSegments st'
               = recalculateSegments (<[i := x]> (stSegments st))
                   (stStartTime st)) as [x ->].
  { destruct Hedit as [[e He]|[Hi [t Ht]]].
    - unfold updateSegment in He.
      destruct (stSegments st !! i) as [seg|]; [|done].
      injection He as <-. eauto.
    - unfold handleEndTimeChange in Ht.
      destruct i as [|i]; [lia|]. cbn [Nat.eqb] in Ht.
      destruct (stSegments st !! S i) as [seg|]; [|done].
      injection Ht as <-. eauto. }
  split.
  - by rewrite recalculateSegments_length, length_insert.
  - rewrite recalculateSegments_take, take_insert_ge by lia.
    by apply recalculated_take.
Qed.

Lemma edits_keep_earlier_rows_witness :
  ∃ st',
    handleEndTimeChange exampleEditor 2 (js "11:00") = Some st'
    ∧ take 2 (stSegments st') = take 2 (stSegments exampleEditor).
Proof.
  eexists. split; [reflexivity|].
  apply (edits_keep_earlier_rows exampleEditor 2).
  - apply recalculateFrom_again.
  - right. split; [lia|]. by eexists.
Defined.

(** X16: in a recalculated editor, duplicating row [i] adds one row.  The
    rows up to [i] stay as they are; the row after [i] is the copy: the
    new identifier, the name with a prime, the other inputs and the mode
    of the original, and it starts when the original ends. *)
Theorem duplicateRow_copy st newId i original :
  recalculated st →
  stSegments st !! i = Some original →
  ∃ st' copy,
    duplicateRow st newId i = Some st'
    ∧ stStartTime st' = stStartTime st
    ∧ length (stSegments st') = S (length (stSegments st))
    ∧ take (S i) (stSegments st') = take (S i) (stSegments st)
    ∧ stSegments st' !! S i = Some copy
    ∧ id copy = newId
    ∧ name copy = name original ++ js "'"
    ∧ description copy = description original
    ∧ splitDistKm copy = splitDistKm original
    ∧ splitElevM copy = splitElevM original
    ∧ targetEPH copy = targetEPH original
    ∧ customDurationMins copy = customDurationMins original
    ∧ ep copy = ep original
    ∧ startTime copy = endTime original.
Proof.
  intros Hfix Horig.
  pose proof (lookup_lt_Some _ _ _ Horig) as Hlen.
  set (g := stStartTime st).
  set (updated := take (S i) (stSegments st)
                  ++ duplicateOf original newId
                     :: drop (S i) (stSegments st)).
  assert (length (take (S i) (stSegments st)) = S i) as Htake
    by (rewrite length_take; lia).
  assert (updated !! S i = Some (duplicateOf original newId)) as Hcopy.
  { unfold updated. rewrite <- Htake at 1. apply list_lookup_middle.
    done. }
  assert (take (S i) (recalculateSegments updated g)
          = take (S i) (stSegments st)) as Hbefore.
  { rewrite recalculateSegments_take. unfold updated.
    rewrite <- Htake at 1. rewrite take_app_length.
    by apply recalculated_take. }
  assert (recalculateSegments updated g !! i = Some original) as Hrow.
  { rewrite <- (lookup_take_lt _ (S i)) by lia. rewrite Hbefore.
    rewrite lookup_take_lt by lia. done. }
  destruct (recalculateSegments updated g !! S i) as [copy|] eqn:Hnext.
  2:{ rewrite recalculateSegments_lookup, Hcopy in Hnext. done. }
  exists (setSegments st (recalculateSegments updated g)), copy.
  split; [unfold duplicateRow; by rewrite Horig|].
  split; [done|]. split.
  { cbn [setSegments stSegments].
    rewrite recalculateSegments_length. unfold updated.
    rewrite length_app, Htake. cbn [length]. rewrite length_drop. lia. }
  split; [done|]. split; [done|].
  destruct (consecutive_rows updated g i original copy Hrow Hnext)
    as (sb & Hsb & -> & _ & _ & _ & Hclock).
  rewrite Hcopy in Hsb. injection Hsb as <-.
  set (run := runAfter g (initialRunning g) 0 (take (S i) updated)) in *.
  destruct (row_inputs g run (S i) (duplicateOf original newId))
    as (-> & -> & -> & -> & -> & -> & ->).
  destruct (row_times g run (S i) (duplicateOf original newId)) as [-> _].
  rewrite row_ep. cbn [Nat.eqb]. rewrite Hclock.
  do 7 (split; [done|]). split; [|done].
  assert (recalculateSegments (stSegments st) g !! i = Some original)
    as Hagain by (unfold g; by rewrite Hfix).
  apply recalculateSegments_lookup_Some in Hagain
    as (seg & Hseg & Heq).
  rewrite Horig in Hseg. injection Hseg as <-.
  rewrite Heq at 3. unfold rowAt. by rewrite row_ep.
Qed.

Lemma duplicateRow_copy_witness :
  ∃ st' copy,
    duplicateRow exampleEditor (js "new") 2 = Some st'
    ∧ length (stSegments st') = 5%nat
    ∧ stSegments st' !! 3%nat = Some copy
    ∧ name copy = js "B'"
    ∧ customDurationMins copy = Some (num 30)
    ∧ startTime copy = js "10:05".
Proof.
  destruct (duplicateRow_copy exampleEditor (js "new") 2
              (rowAt (js "07:00") examplePlan 2
                 (inputRow "B" (num 3) (num 0) (num 8) (Some (num 30)))))
    as (st' & copy & Hst & _ & Hlen & _ & Hcopy & _ & Hname & _ & _ & _ & _
        & Hcustom & _ & Hstart);
    [apply recalculateFrom_again | reflexivity |].
  exists st', copy. do 3 (split; [done|]).
  rewrite Hname, Hcustom, Hstart.
  do 2 (split; [vm_compute; reflexivity|]). vm_compute. reflexivity.
Defined.

Lemma delete_ge (l : list Segment) i : (length l ≤ i)%nat → delete i l = l.
Proof.
  intros Hi. rewrite delete_take_drop, take_ge, drop_ge by lia.
  apply app_nil_r.
Qed.

(** X17: [deleteRow] keeps the last row: with at most one row it leaves
    the state as it is, and a list that has a row still has one after
    it.  With more rows it removes one row when the index is in range;
    with an index out of range it leaves a recalculated editor as it
    is. *)
Theorem deleteRow_edges st i :
  ((length (stSegments st) ≤ 1)%nat → deleteRow st i = st)
  ∧ (stSegments st ≠ [] → stSegments (deleteRow st i) ≠ [])
  ∧ ((1 < length (stSegments st))%nat → (i < length (stSegments st))%nat →
     S (length (stSegments (deleteRow st i))) = length (stSegments st))
  ∧ (recalculated st → (length (stSegments st) ≤ i)%nat →
     deleteRow st i = st).
Proof.
  unfold deleteRow.
  destruct (length (stSegments st) <=? 1)%nat eqn:Hlen.
  - apply Nat.leb_le in Hlen. repeat split; try done; lia.
  - apply Nat.leb_gt in Hlen. cbn [setSegments stSegments].
    split; [lia|]. split; [|split].
    + intros _ Hnil. apply (f_equal length) in Hnil.
      rewrite recalculateSegments_length in Hnil.
      destruct (decide (i < length (stSegments st))%nat).
      * rewrite length_delete in Hnil by by apply lookup_lt_is_Some.
        simpl in Hnil. lia.
      * rewrite delete_ge in Hnil by lia. simpl in Hnil. lia.
    + intros _ Hi. rewrite recalculateSegments_length.
      rewrite length_delete by by apply lookup_lt_is_Some. lia.
    + intros Hfix Hi. rewrite delete_ge by lia. rewrite Hfix.
      apply setSegments_same.
Qed.

Lemma setSegments_setSegments st l l' :
  setSegments (setSegments st l) l' = setSegments st l'.
Proof. done. Qed.

(** The state after a recalculation of a list with the same inputs as
    the segments of a recalculated editor is that editor again. *)
Lemma recalculated_back st l :
  recalculated st →
  Forall2 sameInputs l (stSegments st) →
  setSegments st (recalculateSegments l (stStartTime st)) = st.
Proof.
  intros Hfix Hl. rewrite (recalculate_inputs_only _ _ _ Hl), Hfix.
  apply setSegments_same.
Qed.

(** X18: in a recalculated editor, deleting the copy that [duplicateRow]
    has just made gives the state before the duplication. *)
Theorem deleteRow_duplicateRow st newId i st' :
  recalculated st →
  duplicateRow st newId i = Some st' →
  deleteRow st' (S i) = st.
Proof.
  intros Hfix Hdup. unfold duplicateRow in Hdup.
  destruct (stSegments st !! i) as [original|] eqn:Horig; [|done].
  injection Hdup as <-.
  pose proof (lookup_lt_Some _ _ _ Horig) as Hlen.
  set (updated := take (S i) (stSegments st)
                  ++ duplicateOf original newId
                     :: drop (S i) (stSegments st)).
  assert (length (take (S i) (stSegments st)) = S i) as Htake
    by (rewrite length_take; lia).
  assert (length updated = S (length (stSegments st))) as Hupdated.
  { unfold updated. rewrite length_app, Htake. cbn [length].
    rewrite length_drop. lia. }
  unfold deleteRow. cbn [setSegments stSegments stStartTime].
  rewrite recalculateSegments_length, Hupdated.
  destruct (S (length (stSegments st)) <=? 1)%nat eqn:Hle;
    [apply Nat.leb_le in Hle; lia|].
  change (setSegments st
            (recalculateSegments
               (delete (S i) (recalculateSegments updated (stStartTime st)))
               (stStartTime st)) = st).
  apply recalculated_back; [done|].
  assert (delete (S i) updated = stSegments st) as Hdel.
  { unfold updated. rewrite <- Htake at 1. rewrite delete_middle.
    apply take_drop. }
  pose proof (Forall2_delete sameInputs _ _ (S i)
                (recalculateSegments_sameInputs updated (stStartTime st)))
    as Hsame.
  by rewrite Hdel in Hsame.
Qed.

Lemma deleteRow_duplicateRow_witness :
  ∃ st',
    duplicateRow exampleEditor (js "new") 1 = Some st'
    ∧ deleteRow st' 2 = exampleEditor.
Proof.
  eexists. split; [reflexivity|].
  apply (deleteRow_duplicateRow exampleEditor (js "new") 1);
    [apply recalculateFrom_again | reflexivity].
Defined.

(** X19: in a recalculated editor, deleting the row that [addRow] has
    just appended gives the state before. *)
Theorem deleteRow_addRow st newId st' :
  recalculated st →
  addRow st newId = Some st' →
  deleteRow st' (length (stSegments st)) = st.
Proof.
  intros Hfix Hadd. unfold addRow in Hadd.
  destruct (stSegments st !! (length (stSegments st) - 1)%nat)
    as [lastSeg|] eqn:Hlast; [|done].
  injection Hadd as <-.
  pose proof (lookup_lt_Some _ _ _ Hlast) as Hlen.
  unfold deleteRow. cbn [setSegments stSegments stStartTime].
  rewrite recalculateSegments_length, length_app. cbn [length].
  destruct (length (stSegments st) + 1 <=? 1)%nat eqn:Hle;
    [apply Nat.leb_le in Hle; lia|].
  change (setSegments st
            (recalculateSegments
               (delete (length (stSegments st))
                  (recalculateSegments
                     (stSegments st ++ [newRow newId (name lastSeg)])
                     (stStartTime st)))
               (stStartTime st)) = st).
  apply recalculated_back; [done|].
  pose proof (Forall2_delete sameInputs _ _ (length (stSegments st))
                (recalculateSegments_sameInputs
                   (stSegments st ++ [newRow newId (name lastSeg)])
                   (stStartTime st))) as Hsame.
  by rewrite (delete_middle (stSegments st) []), app_nil_r in Hsame.
Qed.

Lemma deleteRow_addRow_witness :
  ∃ st',
    addRow exampleEditor (js "new") = Some st'
    ∧ deleteRow st' 4 = exampleEditor.
Proof.
  eexists. split; [reflexivity|].
  apply (deleteRow_addRow exampleEditor (js "new"));
    [apply recalculateFrom_again | reflexivity].
Defined.

(** ** The states of the editor *)

Lemma recalculateSegments_nonempty segs g :
  segs ≠ [] → recalculateSegments segs g ≠ [].
Proof.
  intros Hne Hnil. apply (f_equal length) in Hnil.
  rewrite recalculateSegments_length in Hnil. by destruct segs.
Qed.

Lemma recalculated_setSegments st l :
  recalculated (setSegments st (recalculateSegments l (stStartTime st))).
Proof. apply recalculateFrom_again. Qed.

Lemma startTimeEffect_recalculated st : recalculated (startTimeEffect st).
Proof. apply recalculateFrom_again. Qed.

Lemma rerender_setStartTime st value :
  stSegments st ≠ [] → recalculated st →
  stSegments (rerender st (setStartTime st value)) ≠ []
  ∧ recalculated (rerender st (setStartTime st value)).
Proof.
  intros Hne Hfix. unfold rerender. cbn [setStartTime stStartTime].
  case_bool_decide as Hsame.
  - split; [done|]. unfold recalculated. cbn [stSegments stStartTime].
    by rewrite <- Hsame.
  - split; [by apply recalculateSegments_nonempty|].
    apply startTimeEffect_recalculated.
Qed.

Lemma handle_consistent st ev st' :
  stSegments st ≠ [] → recalculated st →
  handle st ev = Some st' →
  stSegments st' ≠ [] ∧ recalculated st'.
Proof.
  intros Hne Hfix Hev. destruct ev as [v|v|i e|i t|newId|newId i|i];
    cbn [handle] in Hev.
  - by injection Hev as <-.
  - injection Hev as <-. by apply rerender_setStartTime.
  - unfold updateSegment in Hev.
    destruct (stSegments st !! i) as [seg|] eqn:Hseg; [|done].
    injection Hev as <-. split; [|apply recalculated_setSegments].
    apply recalculateSegments_nonempty. intros Hnil.
    apply (f_equal length) in Hnil. rewrite length_insert in Hnil.
    by destruct (stSegments st).
  - unfold handleEndTimeChange in Hev. destruct i as [|i]; cbn [Nat.eqb] in Hev.
    + injection Hev as <-. by apply rerender_setStartTime.
    + destruct (stSegments st !! S i) as [seg|] eqn:Hseg; [|done].
      injection Hev as <-. unfold rerender. cbn [setSegments stStartTime].
      rewrite bool_decide_eq_true_2 by done.
      split; [|apply (recalculated_setSegments st)].
      apply recalculateSegments_nonempty. intros Hnil.
      apply (f_equal length) in Hnil. rewrite length_insert in Hnil.
      by destruct (stSegments st).
  - unfold addRow in Hev.
    destruct (stSegments st !! _) as [lastSeg|]; [|done].
    injection Hev as <-. split; [|apply recalculated_setSegments].
    apply recalculateSegments_nonempty. by destruct (stSegments st).
  - unfold duplicateRow in Hev.
    destruct (stSegments st !! i) as [original|]; [|done].
    injection Hev as <-. split; [|apply recalculated_setSegments].
    apply recalculateSegments_nonempty.
    by destruct (take (S i) (stSegments st)).
  - injection Hev as <-. unfold deleteRow.
    destruct (length (stSegments st) <=? 1)%nat eqn:Hlen; [done|].
    apply Nat.leb_gt in Hlen.
    split; [|apply recalculated_setSegments].
    apply recalculateSegments_nonempty. intros Hnil.
    apply (f_equal length) in Hnil.
    destruct (decide (i < length (stSegments st))%nat).
    + rewrite length_delete in Hnil by by apply lookup_lt_is_Some.
      simpl in Hnil. lia.
    + rewrite delete_ge in Hnil by lia. simpl in Hnil. lia.
Qed.

Lemma mount_consistent initialSession id1 id2 :
  stSegments (mount initialSession id1 id2) ≠ []
  ∧ recalculated (mount initialSession id1 id2).
Proof.
  split; [|apply startTimeEffect_recalculated].
  unfold mount. cbn [startTimeEffect stSegments].
  apply recalculateSegments_nonempty.
  destruct initialSession as [session|]; [|done].
  destruct (0 <? length (Session.segments session))%nat eqn:Hlen; [|done].
  apply Nat.ltb_lt in Hlen.
  destruct (Session.segments session); [simpl in Hlen; lia | done].
Qed.

Lemma last_row_exists (segs : list Segment) :
  segs ≠ [] → is_Some (segs !! (length segs - 1)%nat).
Proof.
  intros Hne. apply lookup_lt_is_Some. destruct segs; [done|].
  simpl. lia.
Qed.

(** X20: in every state that the editor reaches, from mounting on and
    through any events, there is at least one row and the rows are
    recalculated from the start time; so saving and appending a row never
    throw. *)
Theorem reachable_consistent st :
  reachable st →
  stSegments st ≠ []
  ∧ recalculated st
  ∧ (∀ sessionId sessionDate,
       is_Some (handleSave st sessionId sessionDate))
  ∧ (∀ newId, is_Some (addRow st newId)).
Proof.
  intros Hreach.
  assert (stSegments st ≠ [] ∧ recalculated st) as [Hne Hfix].
  { induction Hreach as [|st ev st' _ [Hne Hfix] Hev].
    - apply mount_consistent.
    - by apply (handle_consistent st ev). }
  do 2 (split; [done|]).
  destruct (last_row_exists _ Hne) as [lastSeg Hlast]. split.
  - intros sessionId sessionDate. unfold handleSave. by rewrite Hlast.
  - intros newId. unfold addRow. by rewrite Hlast.
Qed.

(** A new plan, its start row deleted, then its only row deleted again:
    one row is left, and it can be saved. *)
Lemma reachable_consistent_witness :
  length (stSegments
            (deleteRow (deleteRow (mount None (js "a") (js "b")) 0) 0))
  = 1%nat
  ∧ is_Some (handleSave
               (deleteRow (deleteRow (mount None (js "a") (js "b")) 0) 0)
               (js "s") (js "2026-01-01")).
Proof.
  split; [reflexivity|].
  apply (reachable_consistent
           (deleteRow (deleteRow (mount None (js "a") (js "b")) 0) 0)).
  apply (reachable_handle (deleteRow (mount None (js "a") (js "b")) 0)
           (DeleteRow 0)); [|reflexivity].
  apply (reachable_handle (mount None (js "a") (js "b")) (DeleteRow 0));
    [|reflexivity].
  apply reachable_mount.
Defined.

(** X21: [handleSave] throws exactly when there is no row.  In a
    recalculated editor the session it builds holds the segments and the
    start time of the editor, and its totals are the sums over all rows:
    of the distances, of the elevations, of the durations and of the
    effort scores. *)
Theorem handleSave_totals st sessionId sessionDate :
  (handleSave st sessionId sessionDate = None ↔ stSegments st = [])
  ∧ (recalculated st →
     ∀ session,
       handleSave st sessionId sessionDate = Some session →
       Session.segments session = stSegments st
       ∧ Session.globalStartTime session = stStartTime st
       ∧ Session.totalDistance session = sumDist (stSegments st)
       ∧ Session.totalElevation session = sumElev (stSegments st)
       ∧ Session.totalDurationHours session = sumTime (stSegments st)
       ∧ Session.totalEP session = sumEP (stSegments st)).
Proof.
  unfold handleSave. split.
  - destruct (stSegments st) as [|seg rest] eqn:Hsegs; [done|].
    destruct (last_row_exists (seg :: rest)) as [lastSeg ->]; [done|].
    done.
  - intros Hfix session Hsave.
    destruct (stSegments st !! (length (stSegments st) - 1)%nat)
      as [lastSeg|] eqn:Hlast; [|done].
    injection Hsave as <-. cbn.
    do 2 (split; [done|]).
    pose proof (lookup_lt_Some _ _ _ Hlast) as Hlen.
    assert (recalculateSegments (stSegments st) (stStartTime st)
              !! (length (stSegments st) - 1)%nat = Some lastSeg) as Hrow
      by (by rewrite Hfix).
    apply recalculateSegments_lookup_Some in Hrow as (seg & Hseg & ->).
    destruct (rowAt_totals (stStartTime st) (stSegments st) _ seg Hseg)
      as (-> & -> & ->).
    rewrite Hfix. rewrite !take_ge by lia. done.
Qed.

(** ** Saving and deleting by key *)

Section upsert.
Context {A : Type} (key : A → jsstring).

Lemma list_find_key_cons (l : list A) y k :
  list_find (λ y, key y = k) (y :: l)
  = if decide (key y = k) then Some (0%nat, y)
    else prod_map S Datatypes.id <$> list_find (λ y, key y = k) l.
Proof. done. Qed.

Lemma list_find_key_insert (l : list A) i x z k :
  l !! i = Some z → key z ≠ k → key x ≠ k →
  list_find (λ y, key y = k) (<[i := x]> l)
  = list_find (λ y, key y = k) l.
Proof.
  revert i. induction l as [|y l IH]; intros i Hz Hkz Hkx; [done|].
  destruct i as [|i].
  - injection Hz as ->.
    change (<[0%nat := x]> (z :: l)) with (x :: l).
    by rewrite !list_find_key_cons, !decide_False by done.
  - change (<[S i := x]> (y :: l)) with (y :: <[i := x]> l).
    rewrite !list_find_key_cons. by rewrite (IH i).
Qed.

Lemma list_find_key_snoc (l : list A) x k :
  key x ≠ k →
  list_find (λ y, key y = k) (l ++ [x]) = list_find (λ y, key y = k) l.
Proof.
  intros Hkx. induction l as [|y l IH].
  - change ([] ++ [x]) with [x].
    by rewrite list_find_key_cons, decide_False by done.
  - change ((y :: l) ++ [x]) with (y :: (l ++ [x])).
    by rewrite !list_find_key_cons, IH.
Qed.

Lemma upserted_find (l : list A) x :
  ∃ i, list_find (λ y, key y = key x) (upserted key l x) = Some (i, x)
     ∧ upserted key l x !! i = Some x.
Proof.
  unfold upserted.
  destruct (list_find (λ y, key y = key x) l) as [[i z]|] eqn:Hfind.
  - apply list_find_Some in Hfind as (Hz & Hkey & Hfirst).
    pose proof (lookup_lt_Some _ _ _ Hz) as Hlen.
    exists i. split; [|by apply list_lookup_insert_eq].
    apply list_find_Some. split; [by apply list_lookup_insert_eq|].
    split; [done|]. intros j y Hy Hj.
    rewrite list_lookup_insert_ne in Hy by lia. by apply (Hfirst j).
  - apply list_find_None in Hfind.
    exists (length l). split; [|by apply list_lookup_middle].
    apply list_find_Some. split; [by apply list_lookup_middle|].
    split; [done|]. intros j y Hy Hj.
    rewrite lookup_app_l in Hy by done.
    rewrite Forall_forall in Hfind. apply Hfind.
    by eapply list_elem_of_lookup_2.
Qed.

Lemma upserted_other (l : list A) x k :
  k ≠ key x →
  list_find (λ y, key y = k) (upserted key l x)
  = list_find (λ y, key y = k) l.
Proof.
  intros Hk. unfold upserted.
  destruct (list_find (λ y, key y = key x) l) as [[i z]|] eqn:Hfind.
  - apply list_find_Some in Hfind as (Hz & Hkey & _).
    apply (list_find_key_insert l i x z); [done|congruence|congruence].
  - by apply list_find_key_snoc.
Qed.

Lemma upserted_length (l : list A) x :
  length (upserted key l x)
  = if list_find (λ y, key y = key x) l is Some _
    then length l else S (length l).
Proof.
  unfold upserted.
  destruct (list_find (λ y, key y = key x) l) as [[i z]|].
  - apply length_insert.
  - rewrite length_app. simpl. lia.
Qed.

Lemma upserted_keys (l : list A) x :
  NoDup (key <$> l) → NoDup (key <$> upserted key l x).
Proof.
  intros Hnodup. unfold upserted.
  destruct (list_find (λ y, key y = key x) l) as [[i z]|] eqn:Hfind.
  - apply list_find_Some in Hfind as (Hz & Hkey & _).
    rewrite list_fmap_insert, list_insert_id; [done|].
    by rewrite list_lookup_fmap, Hz, <- Hkey.
  - apply list_find_None in Hfind. rewrite fmap_app.
    apply NoDup_app. split; [done|]. split; [|apply NoDup_singleton].
    intros k Hk ->%list_elem_of_singleton.
    apply list_elem_of_fmap in Hk as (y & Hy & Hin).
    rewrite Forall_forall in Hfind. by apply (Hfind y).
Qed.

Lemma upserted_again (l : list A) x :
  upserted key (upserted key l x) x = upserted key l x.
Proof.
  destruct (upserted_find l x) as (i & Hfind & Hi).
  unfold upserted at 1. rewrite Hfind. by apply list_insert_id.
Qed.

End upsert.

(** X22: after [handleSaveSession] the session saved is the one found
    under its identifier, the sessions under other identifiers are found
    as before, and the list is one longer exactly when the identifier
    was not there. *)
Theorem handleSaveSession_lookup sessions session :
  sessionById (handleSaveSession sessions session) (Session.id session)
  = Some session
  ∧ (∀ other, other ≠ Session.id session →
       sessionById (handleSaveSession sessions session) other
       = sessionById sessions other)
  ∧ length (handleSaveSession sessions session)
    = (if sessionById sessions (Session.id session) is Some _
       then length sessions else S (length sessions)).
Proof.
  change (handleSaveSession sessions session)
    with (upserted Session.id sessions session).
  unfold sessionById. split; [|split].
  - destruct (upserted_find Session.id sessions session) as (i & -> & _).
    done.
  - intros other Hother. by rewrite upserted_other.
  - rewrite upserted_length.
    by destruct (list_find _ sessions).
Qed.

(** X23: saving a session twice in a row is saving it once. *)
Theorem handleSaveSession_twice sessions session :
  handleSaveSession (handleSaveSession sessions session) session
  = handleSaveSession sessions session.
Proof. apply (upserted_again Session.id). Qed.

(** X24: when the identifiers of the sessions are all different, they
    still are after [handleSaveSession] and after
    [handleDeleteSession]. *)
Theorem session_ids_stay_unique sessions :
  NoDup (Session.id <$> sessions) →
  (∀ session,
     NoDup (Session.id <$> handleSaveSession sessions session))
  ∧ (∀ sessionId confirmed,
       NoDup (Session.id
                <$> handleDeleteSession sessions sessionId confirmed)).
Proof.
  intros Hnodup. split.
  - intros session. by apply (upserted_keys Session.id).
  - intros sessionId [|]; [|done]. unfold handleDeleteSession.
    eapply sublist_NoDup; [done|].
    apply fmap_sublist, sublist_filter.
Qed.

Lemma session_ids_stay_unique_witness :
  NoDup (Session.id <$> [exampleSession; laterSession])
  ∧ NoDup (Session.id
             <$> handleSaveSession [exampleSession; laterSession]
                   laterSession).
Proof.
  assert (Hids : NoDup (Session.id <$> [exampleSession; laterSession])).
  { apply (bool_decide_unpack _). vm_compute. reflexivity. }
  split; [exact Hids|].
  exact (proj1 (session_ids_stay_unique [exampleSession; laterSession]
                  Hids) laterSession).
Defined.

(** X25: a deletion that is confirmed removes every session with the
    identifier and keeps the others, in their order; one that is not
    confirmed changes nothing. *)
Theorem handleDeleteSession_removes sessions sessionId :
  sessionById (handleDeleteSession sessions sessionId true) sessionId = None
  ∧ (∀ s, s ∈ handleDeleteSession sessions sessionId true
          ↔ s ∈ sessions ∧ Session.id s ≠ sessionId)
  ∧ handleDeleteSession sessions sessionId true `sublist_of` sessions
  ∧ handleDeleteSession sessions sessionId false = sessions.
Proof.
  unfold handleDeleteSession, sessionById. split; [|split; [|split]].
  - apply fmap_None, list_find_None, Forall_forall.
    intros s [Hs _]%list_elem_of_filter. done.
  - intros s. rewrite list_elem_of_filter. tauto.
  - apply sublist_filter.
  - done.
Qed.

(** X26: deleting a session just saved gives what deleting it before
    the save gives: the save leaves nothing behind. *)
Theorem handleDeleteSession_after_save sessions session :
  handleDeleteSession (handleSaveSession sessions session)
    (Session.id session) true
  = handleDeleteSession sessions (Session.id session) true.
Proof.
  unfold handleDeleteSession, handleSaveSession.
  destruct (list_find _ sessions) as [[i z]|] eqn:Hfind.
  - apply list_find_Some in Hfind as (Hz & Hkey & _).
    rewrite insert_take_drop by by eapply lookup_lt_Some.
    rewrite <- (take_drop_middle sessions i z Hz) at 3.
    rewrite !filter_app, !filter_cons.
    by rewrite !decide_False by (intros Hne; by apply Hne).
  - rewrite filter_app, filter_cons, filter_nil.
    rewrite decide_False by (intros Hne; by apply Hne).
    apply app_nil_r.
Qed.

(** X27: after [saveGoal] the goal of the current month is the one
    saved, the goals of the other months are found as before, and months
    that were all different still are. *)
Theorem saveGoal_currentGoal goals currentMonthKey goalDistance goalEP :
  currentGoal (saveGoal goals currentMonthKey goalDistance goalEP)
    currentMonthKey
  = Some {| Goal.monthKey := currentMonthKey;
            Goal.targetDistance := goalDistance;
            Goal.targetEP := goalEP |}
  ∧ (∀ other, other ≠ currentMonthKey →
       currentGoal (saveGoal goals currentMonthKey goalDistance goalEP)
         other
       = currentGoal goals other)
  ∧ (NoDup (Goal.monthKey <$> goals) →
     NoDup (Goal.monthKey
              <$> saveGoal goals currentMonthKey goalDistance goalEP)).
Proof.
  set (newGoal := {| Goal.monthKey := currentMonthKey;
                     Goal.targetDistance := goalDistance;
                     Goal.targetEP := goalEP |}).
  change (saveGoal goals currentMonthKey goalDistance goalEP)
    with (upserted Goal.monthKey goals newGoal).
  unfold currentGoal. split; [|split].
  - destruct (upserted_find Goal.monthKey goals newGoal) as (i & Hfind & _).
    change (Goal.monthKey newGoal) with currentMonthKey in Hfind.
    by rewrite Hfind.
  - intros other Hother. by rewrite upserted_other.
  - apply (upserted_keys Goal.monthKey).
Qed.

Lemma recalculateSegment_setId globalStart run index seg v :
  recalculateSegment globalStart run index (setField seg (EditId v))
  = (setField (recalculateSegment globalStart run index seg).1 (EditId v),
     (recalculateSegment globalStart run index seg).2).
Proof.
  unfold recalculateSegment.
  change (duration index (setField seg (EditId v))
            (calculateEP (splitDistKm (setField seg (EditId v)))
               (splitElevM (setField seg (EditId v)))))
    with (duration index seg
            (calculateEP (splitDistKm seg) (splitElevM seg))).
  by destruct (duration index seg _) as [[? ?] ?].
Qed.

Lemma recalculateFrom_setId globalStart (ids : nat → jsstring) segs :
  ∀ run index,
    recalculateFrom globalStart run index
      (imap (λ k s, setField s (EditId (ids k))) segs)
    = imap (λ k s, setField s (EditId (ids k)))
        (recalculateFrom globalStart run index segs).
Proof.
  revert ids. induction segs as [|seg rest IH]; intros ids run index;
    [done|].
  rewrite imap_cons. cbn [recalculateFrom].
  rewrite recalculateSegment_setId.
  destruct (recalculateSegment globalStart run index seg) as [seg' run'].
  rewrite imap_cons. cbn [fst snd]. f_equal.
  apply (IH (ids ∘ S)).
Qed.

(** X28: [handleDuplicateSession] puts the copy in front of the
    sessions, under the first identifier drawn.  Recalculating the rows
    of the copy gives the recalculated rows of the original under the
    identifiers drawn next, so the rows of the copy are as a
    recalculation leaves them whenever those of the original are. *)
Theorem handleDuplicateSession_rows sessions session generateId now :
  ∃ copy,
    handleDuplicateSession sessions session generateId now
    = copy :: sessions
    ∧ Session.id copy = generateId 0%nat
    ∧ recalculateSegments (Session.segments copy)
        (Session.globalStartTime copy)
      = imap (λ k s, setField s (EditId (generateId (S k))))
          (recalculateSegments (Session.segments session)
             (Session.globalStartTime session))
    ∧ (recalculateSegments (Session.segments session)
         (Session.globalStartTime session)
       = Session.segments session →
       recalculateSegments (Session.segments copy)
         (Session.globalStartTime copy)
       = Session.segments copy).
Proof.
  eexists. split; [reflexivity|]. split; [reflexivity|].
  cbn [Session.segments Session.globalStartTime].
  assert (Heq : recalculateSegments
                  (imap (λ k s, setField s (EditId (generateId (S k))))
                     (Session.segments session))
                  (Session.globalStartTime session)
                = imap (λ k s, setField s (EditId (generateId (S k))))
                    (recalculateSegments (Session.segments session)
                       (Session.globalStartTime session))).
  { unfold recalculateSegments.
    apply (recalculateFrom_setId _ (generateId ∘ S)). }
  split; [done|]. intros Hfix. by rewrite Heq, Hfix.
Qed.

Lemma filter_all_kept {A} (P : A → Prop) `{∀ x, Decision (P x)}
  (l : list A) :
  Forall P l → filter P l = l.
Proof.
  induction 1 as [|x l Hx _ IH]; [done|].
  by rewrite filter_cons, decide_True, IH by done.
Qed.

(** X29: when no session has the identifier drawn for the copy, deleting
    the copy that [handleDuplicateSession] made gives the sessions
    back. *)
Theorem handleDuplicateSession_undone sessions session generateId now :
  Forall (λ s, Session.id s ≠ generateId 0%nat) sessions →
  handleDeleteSession
    (handleDuplicateSession sessions session generateId now)
    (generateId 0%nat) true
  = sessions.
Proof.
  intros Hfresh. unfold handleDeleteSession, handleDuplicateSession.
  rewrite filter_cons, decide_False by (intros Hne; by apply Hne).
  by apply filter_all_kept.
Qed.

Lemma handleDuplicateSession_undone_witness :
  Forall (λ s, Session.id s ≠ js "c0") [exampleSession; laterSession]
  ∧ handleDeleteSession
      (handleDuplicateSession [exampleSession; laterSession]
         exampleSession (λ k, js "c" ++ [N.of_nat (48 + k)])
         (js "2026-03-01T09:00:00.000Z"))
      (js "c0") true
    = [exampleSession; laterSession].
Proof.
  assert (Hfresh : Forall (λ s, Session.id s ≠ js "c0")
                     [exampleSession; laterSession]).
  { repeat constructor; vm_compute; discriminate. }
  split; [exact Hfresh|].
  exact (handleDuplicateSession_undone [exampleSession; laterSession]
           exampleSession (λ k, js "c" ++ [N.of_nat (48 + k)])
           (js "2026-03-01T09:00:00.000Z") Hfresh).
Defined.

(** X30: saving a session whose identifier is new adds its distance and
    its effort score to the totals of the current month when its date
    starts with the key of that month, and leaves the totals as they
    were otherwise. *)
Theorem month_totals_after_save sessions session currentMonthKey :
  sessionById sessions (Session.id session) = None →
  currentMonthDist (handleSaveSession sessions session) currentMonthKey
  = (if startsWith (Session.date session) currentMonthKey
     then currentMonthDist sessions currentMonthKey
          + Session.totalDistance session
     else currentMonthDist sessions currentMonthKey)
  ∧ currentMonthEP (handleSaveSession sessions session) currentMonthKey
    = (if startsWith (Session.date session) currentMonthKey
       then currentMonthEP sessions currentMonthKey
            + Session.totalEP session
       else currentMonthEP sessions currentMonthKey).
Proof.
  intros Hnew. apply fmap_None in Hnew.
  unfold handleSaveSession. rewrite Hnew.
  unfold currentMonthDist, currentMonthEP, currentMonthSessions.
  rewrite filter_app, filter_cons, filter_nil.
  destruct (startsWith (Session.date session) currentMonthKey).
  - rewrite decide_True by done. by rewrite !fold_left_app.
  - rewrite decide_False by done. by rewrite app_nil_r.
Qed.

Lemma month_totals_after_save_witness :
  sessionById [exampleSession] (Session.id laterSession) = None
  ∧ currentMonthDist (handleSaveSession [exampleSession] laterSession)
      (js "2026-02")
    = currentMonthDist [exampleSession] (js "2026-02")
      + Session.totalDistance laterSession.
Proof.
  split; [reflexivity|].
  exact (proj1 (month_totals_after_save [exampleSession] laterSession
                  (js "2026-02") eq_refl)).
Defined.
